(** * PyExplorer (stellar-explorer): a shallow embedding of [main.py]

    The development follows the four stateful parts of [main.py]:

    - [Nav]      : the back/forward history kept by [FileTab]
                   ([__init__], [set_directory], [go_back], [go_forward]);
    - [Mount]    : [is_device_mounted], [mount_device], [unmount_device];
    - [Transfer] : [FileOpWorker.run];
    - [Trash]    : [delete_selected] and [restore_from_trash].

    Python integers are unbounded and are modelled by [Z]; Python lists by
    [list]; [str] and [Path] by [string]; a raised exception by an explicit
    result constructor. *)

From Stdlib Require Import ZArith String Ascii List Lia Bool.
From stdpp Require Import base option list strings pretty gmap.

Set Warnings "-register-all".

Local Open Scope string_scope.
Local Open Scope list_scope.
Local Open Scope Z_scope.

(** ** Python values shared by all parts *)

Module Py.

(** The outcome of a Python call: a returned value or a raised exception
    (carried as its message). *)
Inductive result (A : Type) : Type :=
| Return (a : A)
| Raise (exc : string).
Arguments Return {A} a.
Arguments Raise {A} exc.

(** [len(l)] as a Python integer. *)
Definition len {A} (l : list A) : Z := Z.of_nat (length l).

(** [l[i]]: negative indices count from the end; out of range raises
    [IndexError], rendered by [None]. *)
Definition index {A} (l : list A) (i : Z) : option A :=
  if 0 <=? i then l !! Z.to_nat i
  else if 0 <=? len l + i then l !! Z.to_nat (len l + i)
  else None.

(** [l[:k]]: a negative [k] counts from the end, and the bound is clipped
    to the list. *)
Definition slice_to {A} (l : list A) (k : Z) : list A :=
  if 0 <=? k then take (Z.to_nat k) l
  else take (Z.to_nat (len l + k)) l.

(** [s.startswith(p)]. *)
Definition startswith (p s : string) : bool := String.prefix p s.

(** [p in s] for strings: [p] occurs somewhere in [s]. *)
Fixpoint contains (p s : string) : bool :=
  String.prefix p s ||
  match s with
  | EmptyString => false
  | String _ s' => contains p s'
  end.

End Py.

Import Py.

(** ** Navigation history ([FileTab.history], [FileTab.history_index]) *)

Module Nav.

Definition Path := string.

(** The fields of [FileTab] that navigation reads and writes. *)
Record FileTab : Type := mkTab {
  current_path : Path;
  history : list Path;
  history_index : Z
}.

(** The operating system as the tab sees it.  [W] is the state of the
    outside world; the fields are the calls [set_directory], [go_back] and
    [go_forward] make. *)
Record OS (W : Type) : Type := mkOS {
  os_access_R : W -> Path -> bool;          (* os.access(path, os.R_OK) *)
  mount_with_auth : W -> Path -> bool * W;  (* may mount the device *)
  path_exists : W -> Path -> bool;          (* path.exists() *)
  resolve : W -> Path -> Path               (* path.resolve() *)
}.
Arguments os_access_R {W} _ _ _.
Arguments mount_with_auth {W} _ _ _.
Arguments path_exists {W} _ _ _.
Arguments resolve {W} _ _ _.

(** [__init__], lines 163 and 274-275: the history is seeded with the
    resolved starting path. *)
Definition seed {W} (os : OS W) (w : W) (start_path : Path) : FileTab :=
  let cur := resolve os w start_path in
  {| current_path := cur; history := [cur]; history_index := 0 |}.

(** [set_directory], lines 331-335: the history update. *)
Definition update_history (t : FileTab) : FileTab :=
  let h :=
    if history_index t <? len (history t) - 1
    then slice_to (history t) (history_index t + 1)
    else history t in
  let h' := h ++ [current_path t] in
  {| current_path := current_path t;
     history := h';
     history_index := len h' - 1 |}.

(** The spec's [push(path)]: lines 322 and 331-335 of [set_directory], with
    [path] the already resolved directory. *)
Definition push (t : FileTab) (path : Path) : FileTab :=
  update_history
    {| current_path := path; history := history t;
       history_index := history_index t |}.

(** [set_directory], lines 299-335; every early [return] leaves the tab as
    it was. *)
Definition set_directory {W} (os : OS W) (w : W) (t : FileTab) (path : Path)
  : W * FileTab :=
  let mountable := startswith "/dev/" path || startswith "/media/" path in
  let '(ok, w1) :=
    if mountable && negb (os_access_R os w path)
    then mount_with_auth os w path
    else (true, w) in
  if negb ok then (w1, t)
  else if negb (os_access_R os w1 path) then (w1, t)
  else if negb (path_exists os w1 path) then (w1, t)
  else (w1, push t (resolve os w1 path)).

(** [__init__] ends with [apply_settings()], which calls [refresh()], that
    is [set_directory(self.current_path)]. *)
Definition init {W} (os : OS W) (w : W) (start_path : Path) : W * FileTab :=
  let t := seed os w start_path in
  set_directory os w t (current_path t).

(** [go_back], lines 480-491.  The index is decremented before the list is
    read, so an [IndexError] would leave the decrement in place. *)
Definition go_back {W} (os : OS W) (w : W) (t : FileTab)
  : FileTab * result bool :=
  if history_index t >? 0 then
    let i := history_index t - 1 in
    match index (history t) i with
    | Some path =>
        ({| current_path := resolve os w path; history := history t;
            history_index := i |}, Return true)
    | None =>
        ({| current_path := current_path t; history := history t;
            history_index := i |}, Raise "IndexError")
    end
  else (t, Return false).

(** [go_forward], lines 493-504. *)
Definition go_forward {W} (os : OS W) (w : W) (t : FileTab)
  : FileTab * result bool :=
  if history_index t <? len (history t) - 1 then
    let i := history_index t + 1 in
    match index (history t) i with
    | Some path =>
        ({| current_path := resolve os w path; history := history t;
            history_index := i |}, Return true)
    | None =>
        ({| current_path := current_path t; history := history t;
            history_index := i |}, Raise "IndexError")
    end
  else (t, Return false).

(** Tabs reachable from a seeded history.  Between two calls the outside
    world may change arbitrarily, so each step takes its own [w]. *)
Inductive reachable {W} (os : OS W) : FileTab -> Prop :=
| reach_seed w start_path : reachable os (seed os w start_path)
| reach_push t path : reachable os t -> reachable os (push t path)
| reach_set_directory w t path :
    reachable os t -> reachable os (snd (set_directory os w t path))
| reach_back w t : reachable os t -> reachable os (fst (go_back os w t))
| reach_forward w t : reachable os t -> reachable os (fst (go_forward os w t)).

(** The data-model invariant of the history. *)
Definition history_ok (t : FileTab) : Prop :=
  history t <> [] /\ 0 <= history_index t < len (history t).

(** A run of back and forward calls, each in its own world. *)
Inductive direction : Type := MBack | MForward.

Definition do_move {W} (os : OS W) (t : FileTab) (m : W * direction) : FileTab :=
  match snd m with
  | MBack => fst (go_back os (fst m) t)
  | MForward => fst (go_forward os (fst m) t)
  end.

Definition do_moves {W} (os : OS W) (t : FileTab) (ms : list (W * direction))
  : FileTab :=
  fold_left (do_move os) ms t.

(** A world in which every directory is readable and present, and every
    path is already canonical. *)
Definition plain_os : OS unit :=
  {| os_access_R := fun _ _ => true;
     mount_with_auth := fun w _ => (true, w);
     path_exists := fun _ _ => true;
     resolve := fun _ p => p |}.

End Nav.

(** ** Removable devices ([is_device_mounted], [mount_device],
       [unmount_device]) *)

Module Mount.

(** The line feed written as [\n] in the Python source. *)
Definition nl : string := String (ascii_of_nat 10) EmptyString.

(** [is_device_mounted], lines 908-918.  [proc_mounts] is the outcome of
    opening [/proc/mounts] and reading its lines: the lines, or the
    exception that the [except] clause turns into [False]. *)
Definition is_device_mounted (proc_mounts : result (list string))
    (device_path : string) : bool :=
  match proc_mounts with
  | Return mounts => existsb (fun mount => contains device_path mount) mounts
  | Raise _ => false
  end.

(** The first field of a mount-table line (the text before the first
    blank): the device the line is about. *)
Fixpoint first_field (line : string) : string :=
  match line with
  | EmptyString => EmptyString
  | String c rest =>
      if Ascii.eqb c " "%char then EmptyString else String c (first_field rest)
  end.

(** What the specification asks of [isMounted]: some line of the mount
    table has exactly this device path as its device. *)
Definition listed_exactly (mounts : list string) (device_path : string) : bool :=
  existsb (fun mount => String.eqb (first_field mount) device_path) mounts.











End Mount.

(** ** The transfer worker ([FileOpWorker]) *)

Module Transfer.

(** *** Sources

    The sources of a batch are read, never written, by the worker (a moved
    source leaves its old place, which no later step reads): they are
    snapshots.  The batch is assumed to name distinct entries lying outside
    the destination directory, none inside another, as a selection made in
    one directory view does. *)

(** A file (its bytes and metadata, as one value) or a directory with its
    entries in listing order. *)
Inductive node : Type :=
| File (data : string)
| Dir (children : list (string * node)).

(** One element [p] of [self.items]: [p = item_parent / item_name], and
    what [p] is on disk ([None]: nothing there). *)
Record Item : Type := mkItem {
  item_parent : string;
  item_name : string;
  item_node : option node
}.

(** [str(p)]. *)
Definition item_path (p : Item) : string :=
  item_parent p +:+ "/" +:+ item_name p.

(** [p.is_dir()]. *)
Definition item_is_dir (p : Item) : bool :=
  match item_node p with
  | Some (Dir _) => true
  | _ => false
  end.

(** The names of the sub-directories and the regular files of a listing:
    the [dirs] and [files] that [os.walk] yields. *)
Definition dirs_of (children : list (string * node)) : list string :=
  omap (fun c => match snd c with Dir _ => Some (fst c) | File _ => None end)
       children.

Definition files_of (children : list (string * node)) : list (string * string) :=
  omap (fun c => match snd c with File data => Some (fst c, data) | Dir _ => None end)
       children.

(** One triple yielded by [os.walk(p)]: the directory reached, as its path
    relative to [p], with its [dirs] and its [files] (each file with its
    data, which [copy2] reads). *)
Record walk_entry : Type := mkWalk {
  walk_rel : list string;
  walk_dirs : list string;
  walk_files : list (string * string)
}.

(** [os.walk(p)], top-down: a directory first, then each sub-directory in
    listing order. *)
Fixpoint walk (rel : list string) (n : node) : list walk_entry :=
  match n with
  | File _ => []
  | Dir children =>
      mkWalk rel (dirs_of children) (files_of children)
      :: (fix subdirs (cs : list (string * node)) : list walk_entry :=
            match cs with
            | [] => []
            | (name, c) :: cs' => walk (rel ++ [name]) c ++ subdirs cs'
            end) children
  end.

(** [os.walk(p)] for an item. *)
Definition os_walk (p : Item) : list walk_entry :=
  match item_node p with
  | Some n => walk [] n
  | None => []
  end.

(** [str(Path(root) / f)] for a walk of [p]. *)
Definition walked_path (p : Item) (rel : list string) (f : string) : string :=
  foldl (fun s c => s +:+ "/" +:+ c) (item_path p) (rel ++ [f]).

(** *** The destination directory

    The entries below [self.dest], keyed by their path relative to it; the
    empty path is [self.dest] itself, an existing directory. *)

Inductive entry : Type :=
| EFile (data : string)
| EDir.

Abbreviation dest := (gmap (list string) entry).

Definition kind (d : dest) (q : list string) : option entry :=
  match q with
  | [] => Some EDir
  | _ => d !! q
  end.

(** [q.exists()] and [os.path.isdir(q)]. *)
Definition path_exists (d : dest) (q : list string) : bool :=
  match kind d q with Some _ => true | None => false end.

Definition path_isdir (d : dest) (q : list string) : bool :=
  match kind d q with Some EDir => true | _ => false end.

(** [q.mkdir(parents=True, exist_ok=True)]: every missing directory on the
    way is created; a regular file on the way or at [q] raises. *)
Fixpoint mkdirs (pre q : list string) (d : dest) : result dest :=
  match q with
  | [] => Return d
  | name :: q' =>
      let cur := pre ++ [name] in
      match d !! cur with
      | Some EDir => mkdirs cur q' d
      | Some (EFile _) =>
          Raise (match q' with [] => "FileExistsError" | _ => "NotADirectoryError" end)
      | None => mkdirs cur q' (<[cur := EDir]> d)
      end
  end.

Definition mkdir_parents_exist_ok (q : list string) (d : dest) : result dest :=
  mkdirs [] q d.

(** [shutil.copy2(src, q)] for a regular file [src] called [name]: when [q]
    is a directory the file goes inside it under its own name; the file is
    then written, replacing a regular file already there. *)
Definition copy2 (name data : string) (q : list string) (d : dest) : result dest :=
  let q' := if path_isdir d q then q ++ [name] else q in
  match kind d q' with
  | Some EDir => Raise "IsADirectoryError"
  | _ =>
      match kind d (removelast q') with
      | Some EDir => Return (<[q' := EFile data]> d)
      | Some (EFile _) => Raise "NotADirectoryError"
      | None => Raise "FileNotFoundError"
      end
  end.

(** The entries of a tree put at [q]: [q] itself, then everything below. *)
Fixpoint flatten (q : list string) (n : node) : list (list string * entry) :=
  match n with
  | File data => [(q, EFile data)]
  | Dir children =>
      (q, EDir)
      :: (fix below (cs : list (string * node)) : list (list string * entry) :=
            match cs with
            | [] => []
            | (name, c) :: cs' => flatten (q ++ [name]) c ++ below cs'
            end) children
  end.

Definition place (q : list string) (n : node) (d : dest) : dest :=
  foldl (fun m kv => <[fst kv := snd kv]> m) d (flatten q n).

(** [shutil.copytree(p, q)], called only when [q] does not exist: the
    whole tree is cloned at [q]. *)
Definition copytree (n : node) (q : list string) (d : dest) : result dest :=
  if path_exists d q then Raise "FileExistsError"
  else Return (place q n d).

(** [shutil.move(src, q)]: into [q] when [q] is a directory (an entry of
    that name must not be there yet), else onto [q] by renaming, which
    replaces a regular file by a regular file only. *)
Definition move (name : string) (src : option node) (q : list string) (d : dest)
  : result dest :=
  let real_dst := if path_isdir d q then q ++ [name] else q in
  if path_isdir d q && path_exists d real_dst
  then Raise "Destination path already exists"
  else
    match src, kind d real_dst with
    | None, _ => Raise "FileNotFoundError"
    | Some (Dir _), Some _ => Raise "FileExistsError"
    | Some n, _ => Return (place real_dst n d)
    end.

(** *** The worker *)

(** The signals of [FileOpWorker]: [progress(int, str)], [finished_ok()],
    [finished_error(str)]. *)
Inductive signal : Type :=
| progress (percent : Z) (current : string)
| finished_ok
| finished_error (message : string).

(** What [run] changes while it works: the destination, the local [done]
    and the signals emitted so far. *)
Record state : Type := mkState {
  dst : dest;
  done : Z;
  emitted : list signal
}.

(** A step of [run]: it returns or raises, and leaves a state either way. *)
Definition M (A : Type) : Type := state -> result A * state.

Definition ret {A} (a : A) : M A := fun s => (Return a, s).

Definition bind {A B} (m : M A) (k : A -> M B) : M B :=
  fun s =>
    match m s with
    | (Return a, s') => k a s'
    | (Raise e, s') => (Raise e, s')
    end.

#[global] Instance M_ret : MRet M := @ret.
#[global] Instance M_bind : MBind M := fun A B k m => bind m k.

(** A [for] loop whose body may raise. *)
Fixpoint for_each {A} (l : list A) (body : A -> M unit) : M unit :=
  match l with
  | [] => ret tt
  | a :: l' => body a ;; for_each l' body
  end.

(** A file-system call on the destination. *)
Definition fs_call (f : dest -> result dest) : M unit :=
  fun s =>
    match f (dst s) with
    | Return d' => (Return tt, mkState d' (done s) (emitted s))
    | Raise e => (Raise e, s)
    end.

(** [int(done*100/total_files)].  The operands are non-negative integers;
    the quotient is taken as an integer division, which is what the
    truncated floating-point quotient is as long as [done*100] is below
    2^53. *)
Definition percent (done total_files : Z) : Z := (done * 100) / total_files.

(** [done += 1; self.progress.emit(int(done*100/total_files), current)]. *)
Definition count_and_emit (total_files : Z) (current : string) : M unit :=
  fun s =>
    let done' := done s + 1 in
    (Return tt,
     mkState (dst s) done'
             (emitted s ++ [progress (percent done' total_files) current])).

(** Lines 83-89: the pre-scan, giving [file_list]. *)
Definition scan_item (p : Item) : list string :=
  if item_is_dir p then
    flat_map (fun e => map (fun f => walked_path p (walk_rel e) (fst f))
                           (walk_files e))
             (os_walk p)
  else [item_path p].

Definition scan (items : list Item) : list string := flat_map scan_item items.

(** Lines 98-105: the copy of a directory into an existing target. *)
Definition merge (total_files : Z) (p : Item) (target : list string) : M unit :=
  for_each (os_walk p) (fun e =>
    fs_call (mkdir_parents_exist_ok (target ++ walk_rel e)) ;;
    for_each (walk_files e) (fun f =>
      fs_call (copy2 (fst f) (snd f) (target ++ walk_rel e ++ [fst f])) ;;
      count_and_emit total_files (walked_path p (walk_rel e) (fst f)))).

(** Lines 93-117: the body of the second loop, for one item [p]. *)
Definition transfer (total_files : Z) (op : string) (p : Item) : M unit :=
  let target := [item_name p] in
  if String.eqb op "copy" then
    match item_node p with
    | Some (Dir children) =>
        fun s =>
          if path_exists (dst s) target
          then merge total_files p target s
          else (fs_call (copytree (Dir children) target) ;;
                count_and_emit total_files (item_path p)) s
    | Some (File data) =>
        fs_call (copy2 (item_name p) data target) ;;
        count_and_emit total_files (item_path p)
    | None =>
        fun s => (Raise "FileNotFoundError", s)
    end
  else if String.eqb op "move" then
    fs_call (move (item_name p) (item_node p) target) ;;
    count_and_emit total_files (item_path p)
  else ret tt.

(** Line 90. *)
Definition total_of (items : list Item) : Z := Z.max (len (scan items)) 1.

(** [run], lines 79-120: the signals emitted, in order, and the
    destination left behind. *)
Definition run (op : string) (items : list Item) (d : dest)
  : list signal * dest :=
  let total_files := total_of items in
  match for_each items (transfer total_files op) (mkState d 0 []) with
  | (Return _, s) => (emitted s ++ [finished_ok], dst s)
  | (Raise e, s) => (emitted s ++ [finished_error e], dst s)
  end.

(** The percentages of the progress signals of a trace. *)
Definition percents (sigs : list signal) : list Z :=
  omap (fun s => match s with progress pct _ => Some pct | _ => None end) sigs.

(** *** What the specification says of the signals *)

Definition nondecreasing (l : list Z) : Prop :=
  forall (i j : nat) (a b : Z),
    (i <= j)%nat -> l !! i = Some a -> l !! j = Some b -> a <= b.

(** The terminal signal that [run] emits after the loop. *)
Definition terminal (r : result unit) : signal :=
  match r with
  | Return _ => finished_ok
  | Raise e => finished_error e
  end.

Definition is_progress (x : signal) : Prop :=
  exists pct current, x = progress pct current.

(** A run ended by [finished_ok]. *)
Definition completed (sigs : list signal) : Prop :=
  last sigs = Some finished_ok.

(** "N progress events, non-decreasing, the last one at 100", for N the
    number of files found by the pre-scan. *)
Definition reports_every_file (op : string) (items : list Item) (d : dest)
  : Prop :=
  let sigs := fst (run op items d) in
  completed sigs ->
  nondecreasing (percents sigs)
  /\ last (percents sigs) = Some 100
  /\ len (percents sigs) = len (scan items).

(** "When cancellation is requested the run ends in a terminal state
    Cancelled, distinct from Failed and from Completed": the trace ends
    with a signal that is neither [finished_ok] nor [finished_error]. *)
Definition ends_cancelled (sigs : list signal) : Prop :=
  exists t, last sigs = Some t
            /\ t <> finished_ok /\ forall e, t <> finished_error e.

(** The worker has such a state when some run ends in it. *)
Definition has_cancelled_state : Prop :=
  exists op items d, ends_cancelled (fst (run op items d)).

(** *** Relations between the states of a run *)

(** Nothing that is in the destination disappears. *)
Definition grows (d d' : dest) : Prop :=
  forall q, is_Some (d !! q) -> is_Some (d' !! q).

(** The signals emitted so far are progress signals, with the percentages
    of 1, 2, ..., [done]. *)
Definition counted (total_files : Z) (s : state) : Prop :=
  0 <= done s
  /\ percents (emitted s)
     = (fun i => percent i total_files) <$> seqZ 1 (done s)
  /\ Forall is_progress (emitted s).

(** What every step of the worker guarantees between the state it starts
    from and the state it leaves, whether it returns or raises. *)
Definition advances (total_files : Z) (s s' : state) : Prop :=
  grows (dst s) (dst s')
  /\ (counted total_files s -> counted total_files s').

(** The entries a merge of [p] into [target] may write over: for a file
    [f] of the source directory [rel], the place [target/rel/f], and
    [target/rel/f/f] should [target/rel/f] be a directory. *)
Definition may_write (p : Item) (target : list string) : list (list string) :=
  flat_map (fun e =>
    flat_map (fun f => [target ++ walk_rel e ++ [fst f];
                        (target ++ walk_rel e ++ [fst f]) ++ [fst f]])
             (walk_files e))
    (os_walk p).

(** An entry of the destination is still there, unchanged, unless its place
    is in [places]; a directory stays a directory. *)
Definition keeps (places : list (list string)) (s s' : state) : Prop :=
  (forall q e, dst s !! q = Some e -> dst s' !! q = Some e \/ q ∈ places)
  /\ (forall q, dst s !! q = Some EDir -> dst s' !! q = Some EDir).

(** A step relates the state it starts from to the state it leaves. *)
Definition steps (R : state -> state -> Prop) {A} (m : M A) : Prop :=
  forall s, R s (snd (m s)).

(** Started where [J] holds, a step that returns has added [k] to [done]. *)
Definition counts (J : state -> Prop) (k : Z) (m : M unit) : Prop :=
  forall s s' r, J s -> m s = (Return r, s') -> done s' = done s + k.

(** The entry of a source at a path relative to it, if any. *)
Definition source_entry (p : Item) (q : list string) : option entry :=
  match item_node p with
  | Some n => (list_to_map (flatten [] n) : dest) !! q
  | None => None
  end.

(** *** Some batches *)

(** A directory holding two files. *)
Definition two_files : Item :=
  mkItem "/src" "T" (Some (Dir [("a", File "1"); ("b", File "2")])).

(** Two empty directories. *)
Definition empty_dirs : list Item :=
  [mkItem "/src" "e1" (Some (Dir [])); mkItem "/src" "e2" (Some (Dir []))].

(** A directory [T] holding one file [f], and a destination in which
    [T/f] is a directory that holds a file [f] of its own. *)
Definition file_over_dir : Item :=
  mkItem "/src" "T" (Some (Dir [("f", File "new")])).

Definition dir_in_the_way : dest :=
  <[ ["T"; "f"; "f"] := EFile "old" ]>
    (<[ ["T"; "f"] := EDir ]> {[ ["T"] := EDir ]}).

End Transfer.

(** ** The trash ([delete_selected], [restore_from_trash]) *)

Module Trash.
Import Mount.

(** *** Texts *)

(** [c.isspace()] for the characters [strip] removes: tab to carriage
    return, the four separators 28-31, and the blank. *)
Definition is_space (c : ascii) : bool :=
  let n := nat_of_ascii c in
  ((9 <=? n) && (n <=? 13) || (28 <=? n) && (n <=? 32))%nat.

Fixpoint lstrip (s : string) : string :=
  match s with
  | String c s' => if is_space c then lstrip s' else s
  | EmptyString => EmptyString
  end.

Fixpoint rstrip (s : string) : string :=
  match s with
  | EmptyString => EmptyString
  | String c s' =>
      match rstrip s' with
      | EmptyString => if is_space c then EmptyString else String c EmptyString
      | r => String c r
      end
  end.

(** [s.strip()]. *)
Definition strip (s : string) : string := rstrip (lstrip s).

(** [s[n:]]. *)
Fixpoint drop_chars (n : nat) (s : string) : string :=
  match n, s with
  | O, _ => s
  | S n', String _ s' => drop_chars n' s'
  | S _, EmptyString => EmptyString
  end.

(** The lines of a text file as [for line in f] yields them: each keeps
    its line feed, the last one may lack it. *)
Fixpoint lines_from (cur : string) (s : string) : list string :=
  match s with
  | EmptyString =>
      match cur with EmptyString => [] | _ => [cur] end
  | String c s' =>
      if Ascii.eqb c (ascii_of_nat 10)
      then (cur +:+ nl) :: lines_from EmptyString s'
      else lines_from (cur +:+ String c EmptyString) s'
  end.

Definition readlines (s : string) : list string := lines_from EmptyString s.

(** A text without a line feed. *)
Fixpoint one_line (s : string) : bool :=
  match s with
  | EmptyString => true
  | String c s' => negb (Ascii.eqb c (ascii_of_nat 10)) && one_line s'
  end.

(** *** Paths *)

(** The components of a path text, split at the slashes. *)
Fixpoint split_slash (cur : string) (s : string) : list string :=
  match s with
  | EmptyString => [cur]
  | String c s' =>
      if Ascii.eqb c "/"%char
      then cur :: split_slash EmptyString s'
      else split_slash (cur +:+ String c EmptyString) s'
  end.

(** [Path(s)], made absolute: empty components and [.] are dropped, and a
    relative text starts from the working directory. *)
Definition parse_path (cwd : list string) (s : string) : list string :=
  let parts :=
    filter (fun c => c <> EmptyString /\ c <> ".") (split_slash EmptyString s) in
  if String.prefix "/" s then parts else cwd ++ parts.

(** [str(p)] for an absolute path. *)
Definition str (p : list string) : string :=
  match p with
  | [] => "/"
  | _ => foldl (fun s c => s +:+ "/" +:+ c) EmptyString p
  end.

(** [p.name]. *)
Definition name (p : list string) : string := List.last p EmptyString.

(** *** The file system: a tree, read and written at a path from the root *)

Inductive obj : Type :=
| FileObj (content : string)
| DirObj (children : gmap string obj).

Fixpoint get (p : list string) (t : obj) : option obj :=
  match p with
  | [] => Some t
  | x :: p' =>
      match t with
      | DirObj m => match m !! x with Some c => get p' c | None => None end
      | FileObj _ => None
      end
  end.

(** Put [n] at [p]; the directory that is to hold it must exist. *)
Fixpoint put (p : list string) (n : obj) (t : obj) : option obj :=
  match p, t with
  | [], _ => Some n
  | [x], DirObj m => Some (DirObj (<[x := n]> m))
  | x :: p', DirObj m =>
      match m !! x with
      | Some c =>
          match put p' n c with
          | Some c' => Some (DirObj (<[x := c']> m))
          | None => None
          end
      | None => None
      end
  | _, FileObj _ => None
  end.

(** Take away what is at [p]; there must be something. *)
Fixpoint remove (p : list string) (t : obj) : option obj :=
  match p, t with
  | [], _ => None
  | [x], DirObj m =>
      match m !! x with Some _ => Some (DirObj (delete x m)) | None => None end
  | x :: p', DirObj m =>
      match m !! x with
      | Some c =>
          match remove p' c with
          | Some c' => Some (DirObj (<[x := c']> m))
          | None => None
          end
      | None => None
      end
  | _, FileObj _ => None
  end.

(** [p.exists()] and [os.path.isdir(p)]. *)
Definition exists_at (fs : obj) (p : list string) : bool :=
  match get p fs with Some _ => true | None => false end.

Definition isdir_at (fs : obj) (p : list string) : bool :=
  match get p fs with Some (DirObj _) => true | _ => false end.

(** [p.unlink()]: removes a regular file. *)
Definition unlink (p : list string) (fs : obj) : result obj :=
  match get p fs with
  | Some (FileObj _) =>
      match remove p fs with
      | Some fs' => Return fs'
      | None => Raise "FileNotFoundError"
      end
  | Some (DirObj _) => Raise "IsADirectoryError"
  | None => Raise "FileNotFoundError"
  end.

(** Is [p] the path [q] or a path below it? *)
Definition inside (q p : list string) : bool :=
  bool_decide (take (length q) p = q).

(** [shutil.move(src, dst)]: into [dst] when it is a directory (nothing of
    that name may be there), else onto [dst] by renaming, which replaces a
    regular file by a regular file only. *)
Definition shutil_move (src dst : list string) (fs : obj) : result obj :=
  let real_dst := if isdir_at fs dst then dst ++ [name src] else dst in
  if isdir_at fs dst && exists_at fs real_dst
  then Raise "Destination path already exists"
  else
    match get src fs, get real_dst fs with
    | None, _ => Raise "FileNotFoundError"
    | Some (DirObj _), Some _ => Raise "FileExistsError"
    | Some n, _ =>
        if inside src real_dst then Raise "Cannot move a directory into itself"
        else
          match remove src fs with
          | None => Raise "FileNotFoundError"
          | Some fs1 =>
              match put real_dst n fs1 with
              | Some fs2 => Return fs2
              | None => Raise "FileNotFoundError"
              end
          end
    end.

(** *** The trash store *)

(** [Path.home() / ".local/share/Trash/files"] and [.../info]. *)
Definition trash_files (home : list string) : list string :=
  home ++ [".local"; "share"; "Trash"; "files"].

Definition trash_info (home : list string) : list string :=
  home ++ [".local"; "share"; "Trash"; "info"].

(** The metadata record of a trashed item. *)
Definition info_path (home : list string) (stored : string) : list string :=
  trash_info home ++ [stored +:+ ".trashinfo"].

(** Modelled from the spec: [send2trash], the function that
    [delete_selected] calls, belongs to a package that is not part of the
    sources.  Per the specification of [moveToTrash], the item is moved
    into the trash content store with the move primitive, and a metadata
    record holding the original path and the deletion time is written
    under the stored name followed by the fixed suffix.  The record is a
    key-value text; the key of the original path is the [Path=] that
    [restore_from_trash] reads. *)
Definition trashinfo (original_path timestamp : string) : string :=
  "Path=" +:+ original_path +:+ nl +:+
  "DeletionDate=" +:+ timestamp +:+ nl.

(** Modelled from the spec: the stored name is the item's name; what to do
    when that name is taken is left open by the specification, and is
    rendered here by a refusal. *)
Definition send2trash (home : list string) (timestamp : string)
    (path : list string) (fs : obj) : result obj :=
  let stored := name path in
  if exists_at fs (trash_files home ++ [stored])
     || exists_at fs (info_path home stored)
  then Raise "stored name is taken"
  else
    match shutil_move path (trash_files home ++ [stored]) fs with
    | Raise e => Raise e
    | Return fs1 =>
        match put (info_path home stored)
                  (FileObj (trashinfo (str path) timestamp)) fs1 with
        | Some fs2 => Return fs2
        | None => Raise "FileNotFoundError"
        end
    end.

(** What the tab shows to the user. *)
Inductive dialog : Type :=
| Warning (title text : string)
| Information (title text : string)
| Question (title text : string).

(** [delete_selected], lines 646-657: [confirmed] is the answer to the
    question asked first. *)
Definition delete_selected (home : list string) (timestamp : string)
    (confirmed : bool) (paths : list (list string)) (fs : obj)
  : obj * list dialog :=
  match paths with
  | [] => (fs, [])
  | _ =>
      let ask :=
        Question "Eliminar"
          ("Enviar " +:+ pretty (length paths) +:+ " elemento(s) a la Papelera?") in
      if confirmed then
        foldl (fun acc p =>
                 match send2trash home timestamp p (fst acc) with
                 | Return fs' => (fs', snd acc)
                 | Raise e =>
                     (fst acc,
                      snd acc ++ [Warning "Error"
                        ("No se pudo enviar a Papelera: " +:+ str p +:+ nl +:+ e)])
                 end)
              (fs, [ask]) paths
      else (fs, [ask])
  end.

(** Lines 435-441: the text after [Path=] on the first line that starts
    with it, stripped. *)
Fixpoint original_path_of (lines : list string) : option string :=
  match lines with
  | [] => None
  | line :: rest =>
      if startswith "Path=" line
      then Some (strip (drop_chars (String.length "Path=") line))
      else original_path_of rest
  end.

(** [restore_from_trash], lines 428-454.  [overwrite] is the answer given
    if the question is asked; [cwd] is the working directory, against
    which a relative path read from the record is taken. *)
Definition restore_from_trash (home cwd : list string) (overwrite : bool)
    (file_path : list string) (fs : obj) : result (obj * list dialog) :=
  let info := info_path home (name file_path) in
  match get info fs with
  | None =>
      Return (fs, [Warning "Restaurar" "No se encontró información de restauración."])
  | Some (DirObj _) => Raise "IsADirectoryError"
  | Some (FileObj content) =>
      match original_path_of (readlines content) with
      | None =>
          Return (fs, [Warning "Restaurar" "No se encontró la ruta original."])
      | Some orig_path =>
          let orig := parse_path cwd orig_path in
          let asked :=
            if exists_at fs orig
            then [Question "Restaurar"
                    ("El archivo original existe:" +:+ nl +:+ str orig +:+ nl
                     +:+ "¿Sobrescribir?")]
            else [] in
          if exists_at fs orig && negb overwrite then Return (fs, asked)
          else
            let failed e :=
              [Warning "Restaurar" ("No se pudo restaurar:" +:+ nl +:+ e)] in
            match shutil_move file_path orig fs with
            | Raise e => Return (fs, asked ++ failed e)
            | Return fs1 =>
                match unlink info fs1 with
                | Raise e => Return (fs1, asked ++ failed e)
                | Return fs2 =>
                    Return (fs2, asked ++
                      [Information "Restaurar"
                         ("Archivo restaurado a:" +:+ nl +:+ str orig)])
                end
            end
      end
  end.

(** *** A home directory *)

Definition home : list string := ["home"; "user"].

Definition empty_trash : obj :=
  DirObj {[ ".local" := DirObj {[ "share" := DirObj {[ "Trash" :=
    DirObj {[ "files" := DirObj ∅; "info" := DirObj ∅ ]} ]} ]} ]}.

(** [/home/user] holding one file of the given name, and an empty trash. *)
Definition home_with (file content : string) : obj :=
  DirObj {[ "home" := DirObj {[ "user" :=
    match empty_trash with
    | DirObj m => DirObj (<[file := FileObj content]> m)
    | other => other
    end ]} ]}.

End Trash.

(** ** The scripts handed to [pkexec] *)

Module MountScript.
Import Mount Trash.





End MountScript.

(** ** The navigation buttons of the main window *)

Module NavUI.
Import Nav.


End NavUI.

(** ** The device tree ([refresh_devices], [on_tree_context_menu]) *)

Module Devices.
Import Mount.

(** A partition and a block device as [json.loads] gives them for the
    output of [lsblk --json]: a field is [None] when the key is absent or
    [null].  [children] is empty when the device has no such key. *)
Record Partition : Type := mkPartition {
  part_name : option string;
  part_label : option string;
  part_size : option string;
  part_mountpoint : option string
}.

Record BlockDevice : Type := mkBlockDevice {
  dev_name : option string;
  dev_label : option string;
  dev_size : option string;
  dev_mountpoint : option string;
  dev_children : list Partition
}.

(** What [subprocess.run] returned for [lsblk], with its standard output
    already through [json.loads(...).get('blockdevices', [])], which may
    raise. *)
Record LsblkRun : Type := mkLsblkRun {
  lsblk_returncode : Z;
  lsblk_blockdevices : result (list BlockDevice)
}.

(** A tree item: its text and its [UserRole] data, if it was given any. *)
Record Leaf : Type := mkLeaf {
  leaf_text : string;
  leaf_data : option string
}.

(** A device item with the items of its partitions. *)
Record DevItem : Type := mkDevItem {
  dev_leaf : Leaf;
  dev_parts : list Leaf
}.

(** The value of [if x:] for a string or [None]. *)
Definition truthy (x : option string) : option string :=
  match x with
  | Some EmptyString => None
  | _ => x
  end.

(** Lines 849-869 (and 876-895 for a partition): the text and the data of
    the item of the device called [name]. *)
Definition describe (name : string) (label size mountpoint : option string)
  : Leaf :=
  let device := "/dev/" +:+ name in
  let with_label :=
    match truthy label with
    | Some l => device +:+ " (" +:+ l +:+ ")"
    | None => device
    end in
  let with_size :=
    match truthy size with
    | Some s => with_label +:+ " - " +:+ s
    | None => with_label
    end in
  let display :=
    match truthy mountpoint with
    | Some m => with_size +:+ " [Montado en " +:+ m +:+ "]"
    | None => with_size
    end in
  mkLeaf display
         (match truthy mountpoint with
          | Some m => Some m
          | None => Some device
          end).

(** Lines 875-897: the loop over the partitions; a partition without a
    name raises, and the items added before it stay. *)
Fixpoint add_partitions (children : list Partition) (added : list Leaf)
  : list Leaf * option string :=
  match children with
  | [] => (added, None)
  | child :: rest =>
      match part_name child with
      | None => (added, Some "'name'")
      | Some name =>
          add_partitions rest
            (added ++ [describe name (part_label child) (part_size child)
                                (part_mountpoint child)])
      end
  end.

(** Lines 846-897: the loop over the devices; only devices whose name
    starts with [sd] get an item. *)
Fixpoint add_devices (devices : list BlockDevice) (added : list DevItem)
  : list DevItem * option string :=
  match devices with
  | [] => (added, None)
  | device :: rest =>
      match dev_name device with
      | None => (added, Some "'name'")
      | Some name =>
          if startswith "sd" name then
            let leaf := describe name (dev_label device) (dev_size device)
                                 (dev_mountpoint device) in
            let '(parts, err) := add_partitions (dev_children device) [] in
            let added' := added ++ [mkDevItem leaf parts] in
            match err with
            | Some e => (added', Some e)
            | None => add_devices rest added'
            end
          else add_devices rest added
      end
  end.

(** An item that is only a text. *)
Definition note (text : string) : DevItem := mkDevItem (mkLeaf text None) [].

(** [refresh_devices], lines 830-906: the children of the [Dispositivos]
    node afterwards. *)
Definition refresh_devices (run : result LsblkRun) : list DevItem :=
  match run with
  | Raise e => [note ("Error: " +:+ e)]
  | Return r =>
      let '(items, err) :=
        if lsblk_returncode r =? 0 then
          match lsblk_blockdevices r with
          | Return devices => add_devices devices []
          | Raise e => ([], Some e)
          end
        else ([], None) in
      match err with
      | Some e => items ++ [note ("Error: " +:+ e)]
      | None =>
          match items with
          | [] => [note "(Sin dispositivos)"]
          | _ => items
          end
      end
  end.

(** The item of a device that has its name. *)
Definition item_of (device : BlockDevice) : option DevItem :=
  match dev_name device with
  | Some name =>
      if startswith "sd" name then
        Some (mkDevItem
                (describe name (dev_label device) (dev_size device)
                          (dev_mountpoint device))
                (omap (fun c =>
                         match part_name c with
                         | Some n => Some (describe n (part_label c) (part_size c)
                                                    (part_mountpoint c))
                         | None => None
                         end) (dev_children device)))
      else None
  | None => None
  end.

(** Every device and every partition has a name. *)
Definition named (devices : list BlockDevice) : Prop :=
  Forall (fun d => is_Some (dev_name d)
                   /\ Forall (fun c => is_Some (part_name c)) (dev_children d))
         devices.

(** [on_tree_context_menu], lines 761-828: the entries of the menu shown
    for an item with the given data.  An item without data makes
    [path.startswith] raise. *)
Definition tree_menu (proc_mounts : result (list string)) (data : option string)
  : result (list string) :=
  match data with
  | None => Raise "AttributeError"
  | Some path =>
      if String.eqb path "/media" then Return ["Actualizar dispositivos"]
      else if startswith "/dev/" path then
        Return (["Abrir"; "Abrir en una pestaña nueva"]
                ++ (if is_device_mounted proc_mounts path
                    then ["Desmontar"] else ["Montar"]))
      else
        Return ["Abrir"; "Abrir en una pestaña nueva";
                "Abrir en una ventana nueva"]
  end.

End Devices.

(** ** Bounds on the counter of the transfer worker *)

Module TransferBounds.
Import Transfer.

(** Whether it returns or raises, a step adds at most [k] to [done]. *)
Definition adds_at_most (k : Z) {A} (m : M A) : Prop :=
  forall s, done (snd (m s)) <= done s + k.

(** Every source holds at least one file for the pre-scan: it is not a
    directory without any file below it. *)
Definition every_source_counts (items : list Item) : Prop :=
  Forall (fun p => scan_item p <> []) items.

End TransferBounds.

(** ** Purging the trash ([delete_permanently]) *)

Module TrashOps.
Import Mount Trash.

(** [shutil.rmtree(p)] for a directory [p] other than the root: the
    directory goes with everything below it. *)
Definition rmtree (p : list string) (fs : obj) : result obj :=
  match remove p fs with
  | Some fs' => Return fs'
  | None => Raise "FileNotFoundError"
  end.

(** [delete_permanently], lines 456-468. *)
Definition delete_permanently (home : list string) (file_path : list string)
    (fs : obj) : obj * list dialog :=
  let info := info_path home (name file_path) in
  let failed e :=
    [Warning "Eliminar" ("No se pudo eliminar:" +:+ nl +:+ e)] in
  let done_ :=
    [Information "Eliminar" "Archivo eliminado definitivamente."] in
  match (if isdir_at fs file_path
         then rmtree file_path fs else unlink file_path fs) with
  | Raise e => (fs, failed e)
  | Return fs1 =>
      if exists_at fs1 info then
        match unlink info fs1 with
        | Raise e => (fs1, failed e)
        | Return fs2 => (fs2, done_)
        end
      else (fs1, done_)
  end.

(** Neither path is at or below the other. *)
Definition apart (p q : list string) : Prop :=
  ~ p `prefix_of` q /\ ~ q `prefix_of` p.

End TrashOps.

(** ** More of Python's [str] *)

(** As in [Trash], a text is a string of ASCII characters, and whitespace
    is what [is_space] says. *)

Module PyStr.
Import Trash.

(** [s.split()]: the maximal runs of characters that are not whitespace.
    [cur] is the run being read. *)
Fixpoint split_from (cur : string) (s : string) : list string :=
  match s with
  | EmptyString =>
      match cur with EmptyString => [] | _ => [cur] end
  | String c s' =>
      if is_space c then
        match cur with
        | EmptyString => split_from EmptyString s'
        | _ => cur :: split_from EmptyString s'
        end
      else split_from (cur +:+ String c EmptyString) s'
  end.

Definition split (s : string) : list string := split_from EmptyString s.

(** [sep.join(parts)]. *)
Fixpoint join (sep : string) (parts : list string) : string :=
  match parts with
  | [] => EmptyString
  | [part] => part
  | part :: rest => part +:+ sep +:+ join sep rest
  end.

(** [s.replace(old, new)] for a pattern [old] of two characters [a b]:
    from left to right, each occurrence found is replaced and reading goes
    on after it. *)
Fixpoint replace2 (a b : ascii) (new : string) (s : string) : string :=
  match s with
  | EmptyString => EmptyString
  | String c s' =>
      match s' with
      | String c' s'' =>
          if Ascii.eqb c a && Ascii.eqb c' b
          then new +:+ replace2 a b new s''
          else String c (replace2 a b new s')
      | EmptyString => String c EmptyString
      end
  end.

(** A text in which no character is whitespace. *)
Fixpoint no_space (s : string) : bool :=
  match s with
  | EmptyString => true
  | String c s' => negb (is_space c) && no_space s'
  end.

(** A word as [split] gives them: not empty, without whitespace. *)
Definition word (s : string) : Prop :=
  s <> EmptyString /\ no_space s = true.

(** The text after the last dot of [s], when [s] has a dot. *)
Fixpoint after_last_dot (s : string) : option string :=
  match s with
  | EmptyString => None
  | String c s' =>
      match after_last_dot s' with
      | Some t => Some t
      | None => if Ascii.eqb c "." then Some s' else None
      end
  end.

(** [s.lstrip('.')]. *)
Fixpoint lstrip_dots (s : string) : string :=
  match s with
  | String c s' => if Ascii.eqb c "." then lstrip_dots s' else s
  | EmptyString => EmptyString
  end.

End PyStr.

(** ** Execute permissions ([apply_exec_permissions]) *)

Module Perms.
Import PyStr.

(** An entry of the directory as [iterdir] and [stat] show it.
    [chmod_error] is the text of the exception that [chmod] raises on it,
    if it raises.  The entries are different files: none is a link to
    another. *)
Record DirEntry : Type := mkDirEntry {
  entry_name : string;
  entry_is_file : bool;
  st_mode : Z;
  chmod_error : option string
}.

(** [p.suffix]: the name from its last dot on, unless that dot is the
    first or the last character. *)
Definition suffix (name : string) : string :=
  match name with
  | EmptyString => EmptyString
  | String _ rest =>
      match after_last_dot rest with
      | Some EmptyString => EmptyString
      | Some t => "." +:+ t
      | None => EmptyString
      end
  end.

(** [0o111]: the three execute bits. *)
Definition exec_bits : Z := 73.

(** The test of line 555. *)
Definition wants_exec (extensions : list string) (p : DirEntry) : bool :=
  entry_is_file p
  && bool_decide (lstrip_dots (suffix (entry_name p)) ∈ extensions).

(** The loop of lines 554-557 over the entries; the first [chmod] that
    raises ends it, and what was changed before stays. *)
Fixpoint chmod_all (extensions : list string) (entries : list DirEntry)
  : list DirEntry * option string :=
  match entries with
  | [] => ([], None)
  | p :: rest =>
      if wants_exec extensions p then
        match chmod_error p with
        | None =>
            let p' := mkDirEntry (entry_name p) (entry_is_file p)
                                 (Z.lor (st_mode p) exec_bits) None in
            let '(rest', err) := chmod_all extensions rest in
            (p' :: rest', err)
        | Some e => (p :: rest, Some e)
        end
      else
        let '(rest', err) := chmod_all extensions rest in
        (p :: rest', err)
  end.

(** [apply_exec_permissions], lines 548-559, for the setting
    [exec_extensions] and the entries of the current directory: the
    entries afterwards and the status message, if any. *)
Definition apply_exec_permissions (exec_extensions : string)
    (entries : list DirEntry) : list DirEntry * option string :=
  let extensions := split exec_extensions in
  match chmod_all extensions entries with
  | (entries', Some e) =>
      (entries', Some ("Error al cambiar permisos: " +:+ e))
  | (entries', None) => (entries', None)
  end.



End Perms.

(** ** Opening a file with an application ([open_with_dialog]) *)

Module OpenWith.
Import PyStr.

(** Lines 1206-1210: the command line started for the command [cmd] of the
    chosen application and the file [path], as the list given to
    [subprocess.Popen]. *)
Definition launch_argv (cmd path : string) : list string :=
  let cmd1 := replace2 "%" "F" path (replace2 "%" "f" path cmd) in
  let cmd2 :=
    join " " (filter (fun x => startswith "%" x = false) (split cmd1)) in
  split cmd2.

(** The test of line 1146 on the content of a [.desktop] file. *)
Definition mentions_mime (mime_type content : string) : bool :=
  contains ("MimeType=" +:+ mime_type) content || contains "MimeType=" content.

End OpenWith.

(* ================================================================== *)
(** * Properties *)
(* ================================================================== *)

Module PyFacts.

Lemma len_nonneg {A} (l : list A) : 0 <= len l.
Proof. unfold len. lia. Qed.

Lemma len_app {A} (l k : list A) : len (l ++ k) = len l + len k.
Proof. unfold len. rewrite length_app. lia. Qed.

Lemma len_take {A} (l : list A) (n : nat) :
  (n <= length l)%nat -> len (take n l) = Z.of_nat n.
Proof. intros H. unfold len. rewrite length_take. lia. Qed.

Lemma index_in_range {A} (l : list A) (i : Z) :
  0 <= i < len l -> is_Some (index l i).
Proof.
  intros [Hlo Hhi]. unfold index.
  destruct (0 <=? i) eqn:E; [|lia].
  apply lookup_lt_is_Some. unfold len in Hhi. lia.
Qed.

Lemma slice_to_nonneg {A} (l : list A) (k : Z) :
  0 <= k -> slice_to l k = take (Z.to_nat k) l.
Proof. intros H. unfold slice_to. destruct (0 <=? k) eqn:E; [done|lia]. Qed.

End PyFacts.

Module NavFacts.
Import Nav PyFacts.

Section History.
Context {W : Type} (os : OS W).

(** What [push] does to a well-formed history: the entries after the
    current one go, the path is appended, the index is the last one. *)
Lemma push_history (t : FileTab) (path : Path) :
  0 <= history_index t < len (history t) ->
  history (push t path)
    = take (Z.to_nat (history_index t + 1)) (history t) ++ [path]
  /\ history_index (push t path) = history_index t + 1.
Proof.
  intros [Hlo Hhi]. unfold push, update_history. cbn [history history_index current_path].
  destruct (history_index t <? len (history t) - 1) eqn:E.
  - rewrite slice_to_nonneg by lia. split; [done|].
    rewrite len_app, len_take by (unfold len in *; lia).
    unfold len in *. simpl length. lia.
  - assert (history_index t = len (history t) - 1) as Heq by lia.
    split.
    + rewrite firstn_all2; [done|]. unfold len in *. lia.
    + rewrite len_app. unfold len in *. simpl length. lia.
Qed.

Lemma push_ok (t : FileTab) (path : Path) :
  history_ok t -> history_ok (push t path).
Proof.
  intros [_ Hi]. destruct (push_history t path Hi) as [Hh Hx].
  split.
  - rewrite Hh. intros Habs. by apply app_eq_nil in Habs as [_ ?].
  - rewrite Hx, Hh, len_app, len_take by (unfold len in *; lia).
    unfold len in *. simpl length. lia.
Qed.

(** [set_directory] either returns early or pushes the resolved path. *)
Lemma set_directory_cases (w : W) (t : FileTab) (path : Path) :
  snd (set_directory os w t path) = t
  \/ exists w1, snd (set_directory os w t path) = push t (resolve os w1 path).
Proof.
  unfold set_directory.
  match goal with
  | |- context [let '(_, _) := ?e in _] => destruct e as [ok w1]
  end.
  destruct (negb ok); [by left|].
  destruct (negb (os_access_R os w1 path)); [by left|].
  destruct (negb (path_exists os w1 path)); [by left|].
  right. by exists w1.
Qed.

Lemma go_back_history (w : W) (t : FileTab) :
  history (fst (go_back os w t)) = history t.
Proof.
  unfold go_back. destruct (history_index t >? 0); [|done].
  by destruct (index _ _).
Qed.

Lemma go_forward_history (w : W) (t : FileTab) :
  history (fst (go_forward os w t)) = history t.
Proof.
  unfold go_forward. destruct (history_index t <? _); [|done].
  by destruct (index _ _).
Qed.

Lemma go_back_ok (w : W) (t : FileTab) :
  history_ok t ->
  history_ok (fst (go_back os w t))
  /\ exists b, snd (go_back os w t) = Return b.
Proof.
  intros [Hne Hi]. unfold go_back.
  destruct (history_index t >? 0) eqn:E; [|split; [done|by eexists]].
  destruct (index_in_range (history t) (history_index t - 1)) as [p Hp]; [lia|].
  rewrite Hp. cbn. split; [|by eexists].
  split; cbn; [done|lia].
Qed.

Lemma go_forward_ok (w : W) (t : FileTab) :
  history_ok t ->
  history_ok (fst (go_forward os w t))
  /\ exists b, snd (go_forward os w t) = Return b.
Proof.
  intros [Hne Hi]. unfold go_forward.
  destruct (history_index t <? len (history t) - 1) eqn:E;
    [|split; [done|by eexists]].
  destruct (index_in_range (history t) (history_index t + 1)) as [p Hp]; [lia|].
  rewrite Hp. cbn. split; [|by eexists].
  split; cbn; [done|lia].
Qed.

Lemma reachable_ok (t : FileTab) : reachable os t -> history_ok t.
Proof.
  induction 1 as [w p | t p _ IH | w t p _ IH | w t _ IH | w t _ IH].
  - split; [done|]. unfold len. simpl. lia.
  - by apply push_ok.
  - destruct (set_directory_cases w t p) as [-> | [w1 ->]]; [done|].
    by apply push_ok.
  - by apply go_back_ok.
  - by apply go_forward_ok.
Qed.

(** A freshly built tab is reachable: [__init__] seeds the history and then
    refreshes, which pushes the starting directory once more. *)
Lemma init_reachable (w : W) (start_path : Path) :
  reachable os (snd (init os w start_path)).
Proof. unfold init. apply reach_set_directory, reach_seed. Qed.

End History.

Example init_history :
  snd (init plain_os tt "/home/user")
  = mkTab "/home/user" ["/home/user"; "/home/user"] 1.
Proof. reflexivity. Qed.

(** C3.  On a history with entries [H] and current index [i] inside it,
    [push path] keeps the entries up to and including index [i], drops the
    ones after it, appends [path], and makes the new last index current.
    In particular, from [A,B,C,D,E] at index 4, two [go_back] calls lead to
    index 2, and pushing [F] there yields [A,B,C,F] at index 3. *)
Theorem push_discards_forward_entries {W} (os : OS W) (w : W)
    (t : FileTab) (path : Path) :
  0 <= history_index t < len (history t) ->
  history (push t path)
    = take (Z.to_nat (history_index t + 1)) (history t) ++ [path]
  /\ history_index (push t path) = len (history (push t path)) - 1
  /\ (let t0 := mkTab "E" ["A"; "B"; "C"; "D"; "E"] 4 in
      let t2 := fst (go_back os w (fst (go_back os w t0))) in
      history_index t2 = 2
      /\ history (push t2 "F") = ["A"; "B"; "C"; "F"]
      /\ history_index (push t2 "F") = 3).
Proof.
  intros Hi. destruct (push_history t path Hi) as [Hh Hx].
  split; [exact Hh|]. split.
  - rewrite Hx, Hh, len_app, len_take by (unfold len in *; lia).
    unfold len. simpl length. lia.
  - repeat split; reflexivity.
Qed.

Lemma push_discards_forward_entries_witness :
  history (push (mkTab "C" ["A"; "B"; "C"; "D"; "E"] 2) "F")
    = ["A"; "B"; "C"; "F"].
Proof.
  pose proof (push_discards_forward_entries plain_os tt
                (mkTab "C" ["A"; "B"; "C"; "D"; "E"] 2) "F") as H.
  destruct H as [H _]; [unfold len; simpl; lia|].
  exact H.
Defined.

(** C9.  Every tab reachable from a seeded history by [push],
    [set_directory], [go_back] and [go_forward] has a non-empty history and
    an index inside it; [go_back] and [go_forward] never raise there, and
    at index 0 (resp. at the last index) they leave the tab as it is and
    return [False]. *)
Theorem reachable_history_invariant {W} (os : OS W) (t : FileTab) :
  reachable os t ->
  history t <> []
  /\ 0 <= history_index t < len (history t)
  /\ (forall w, exists b, snd (go_back os w t) = Return b)
  /\ (forall w, exists b, snd (go_forward os w t) = Return b)
  /\ (forall w, history_index t = 0 -> go_back os w t = (t, Return false))
  /\ (forall w, history_index t = len (history t) - 1 ->
                go_forward os w t = (t, Return false)).
Proof.
  intros Hr. pose proof (reachable_ok os t Hr) as Hok.
  destruct Hok as [Hne Hi]. split; [done|]. split; [done|].
  split; [intros w; by apply go_back_ok|].
  split; [intros w; by apply go_forward_ok|].
  split.
  - intros w H0. unfold go_back. by rewrite H0.
  - intros w Hl. unfold go_forward. rewrite Hl.
    by rewrite Z.ltb_irrefl.
Qed.

Lemma reachable_history_invariant_witness :
  history (seed plain_os tt "/home/user") <> []
  /\ go_back plain_os tt (seed plain_os tt "/home/user")
     = (seed plain_os tt "/home/user", Return false).
Proof.
  pose proof (reachable_history_invariant plain_os (seed plain_os tt "/home/user")
                (reach_seed plain_os tt "/home/user")) as H.
  destruct H as (Hne & _ & _ & _ & Hb & _).
  split; [exact Hne|]. apply Hb. reflexivity.
Defined.

(** C10.  [go_back] and [go_forward] return a tab with the very same
    history list; so does any run of them, whatever the worlds they run
    in.  Only [push] (see [push_history]) shortens the list. *)
Theorem back_forward_keep_entries {W} (os : OS W) (t : FileTab) :
  (forall w, history (fst (go_back os w t)) = history t)
  /\ (forall w, history (fst (go_forward os w t)) = history t)
  /\ (forall ms, history (do_moves os t ms) = history t).
Proof.
  split; [intros w; apply go_back_history|].
  split; [intros w; apply go_forward_history|].
  intros ms. revert t. induction ms as [|[w m] ms IH]; intros t; [done|].
  unfold do_moves in *. cbn [fold_left]. rewrite IH.
  unfold do_move. cbn [fst snd].
  destruct m; [apply go_back_history | apply go_forward_history].
Qed.

End NavFacts.

Module MountFacts.
Import Mount.

(** C5.  [is_device_mounted] looks for the device path anywhere inside a
    line of the mount table.  With [/dev/sdb1] mounted and [/dev/sdb] not
    listed, it answers [True] for [/dev/sdb]: the path is found inside
    [/dev/sdb1], although no line has [/dev/sdb] as its device. *)
Theorem is_device_mounted_matches_substring :
  let mounts := ["/dev/sdb1 /media/usb vfat rw,relatime 0 0" +:+ nl] in
  is_device_mounted (Return mounts) "/dev/sdb" = true
  /\ listed_exactly mounts "/dev/sdb" = false
  /\ listed_exactly mounts "/dev/sdb1" = true.
Proof. repeat split; reflexivity. Qed.

End MountFacts.

Module TransferFacts.
Import Transfer PyFacts.

(** *** The destination only grows *)

Lemma grows_refl (d : dest) : grows d d.
Proof. by intros q. Qed.

Lemma grows_trans (d1 d2 d3 : dest) : grows d1 d2 -> grows d2 d3 -> grows d1 d3.
Proof. intros H1 H2 q Hq. by apply H2, H1. Qed.

Lemma grows_insert (d : dest) (q : list string) (e : entry) :
  grows d (<[q := e]> d).
Proof.
  intros q' Hq'. destruct (decide (q = q')) as [->|Hne].
  - rewrite lookup_insert_eq. by eexists.
  - by rewrite lookup_insert_ne.
Qed.

Lemma grows_inserts (l : list (list string * entry)) (d : dest) :
  grows d (foldl (fun m kv => <[fst kv := snd kv]> m) d l).
Proof.
  revert d. induction l as [|kv l IH]; intros d; [apply grows_refl|].
  cbn [foldl]. eapply grows_trans; [apply grows_insert | apply IH].
Qed.

Lemma mkdirs_grows (q pre : list string) (d d' : dest) :
  mkdirs pre q d = Return d' -> grows d d'.
Proof.
  revert pre d. induction q as [|n q IH]; intros pre d; cbn [mkdirs].
  - intros [= ->]. apply grows_refl.
  - destruct (d !! (pre ++ [n])) as [[data|]|] eqn:E; [done| |].
    + apply IH.
    + intros H. eapply grows_trans; [apply grows_insert | exact (IH _ _ H)].
Qed.

Lemma copy2_grows (name data : string) (q : list string) (d d' : dest) :
  copy2 name data q d = Return d' -> grows d d'.
Proof.
  unfold copy2. intros H.
  repeat case_match; simplify_eq; apply grows_insert.
Qed.

Lemma copytree_grows (n : node) (q : list string) (d d' : dest) :
  copytree n q d = Return d' -> grows d d'.
Proof.
  unfold copytree. destruct (path_exists d q); [done|].
  intros [= <-]. apply grows_inserts.
Qed.

Lemma move_grows (name : string) (src : option node) (q : list string)
    (d d' : dest) :
  move name src q d = Return d' -> grows d d'.
Proof.
  unfold move. intros H.
  repeat case_match; simplify_eq; apply grows_inserts.
Qed.

(** *** Steps and the relations they keep *)

Section Steps.
Context (R : relation state) `{!PreOrder R}.

Lemma steps_ret {A} (a : A) : steps R (ret a).
Proof. intros s. reflexivity. Qed.

Lemma steps_raise {A} (e : string) : steps R (fun s => (@Raise A e, s)).
Proof. intros s. reflexivity. Qed.

Lemma steps_bind {A B} (m : M A) (k : A -> M B) :
  steps R m -> (forall a, steps R (k a)) -> steps R (m ≫= k).
Proof.
  intros Hm Hk s. unfold mbind, M_bind, bind.
  specialize (Hm s). destruct (m s) as [[a|e] s1]; cbn [snd] in *; [|done].
  etransitivity; [exact Hm | apply Hk].
Qed.

Lemma steps_for_each {A} (l : list A) (body : A -> M unit) :
  (forall a, a ∈ l -> steps R (body a)) -> steps R (for_each l body).
Proof.
  induction l as [|a l IH]; intros Hb; cbn [for_each].
  - apply steps_ret.
  - apply steps_bind; [apply Hb; by left | intros _].
    apply IH. intros b Hin. apply Hb. by right.
Qed.

End Steps.

(** *** The progress signals follow [done] *)

#[global] Instance advances_preorder (total_files : Z) :
  PreOrder (advances total_files).
Proof.
  split.
  - intros s. split; [apply grows_refl | done].
  - intros s1 s2 s3 [G1 C1] [G2 C2].
    split; [by eapply grows_trans | auto].
Qed.

Lemma advances_fs_call (total_files : Z) (f : dest -> result dest) :
  (forall d d', f d = Return d' -> grows d d') ->
  steps (advances total_files) (fs_call f).
Proof.
  intros Hf s. unfold fs_call.
  destruct (f (dst s)) as [d'|e] eqn:E; cbn [snd]; [|reflexivity].
  split; cbn [dst]; [by apply Hf | done].
Qed.

Lemma percents_app (l k : list signal) :
  percents (l ++ k) = percents l ++ percents k.
Proof. unfold percents. apply omap_app. Qed.

Lemma advances_count_and_emit (total_files : Z) (current : string) :
  steps (advances total_files) (count_and_emit total_files current).
Proof.
  intros s. unfold count_and_emit. cbn [snd]. split; cbn [dst]; [apply grows_refl|].
  intros (Hd & Hp & Hall). split; cbn [done emitted]; [lia|].
  split; [|apply Forall_app; split; [done|]; repeat constructor; by eexists _, _].
  rewrite percents_app, Hp. cbn [percents omap].
  rewrite (seqZ_app 1 (done s) 1) by lia.
  rewrite fmap_app. f_equal.
  replace (seqZ (1 + done s) 1) with [1 + done s] by done.
  cbn. by rewrite (Z.add_comm 1).
Qed.

Lemma advances_copy_file (total_files : Z) (f : string * string)
    (q : list string) (current : string) :
  steps (advances total_files)
        (fs_call (copy2 (fst f) (snd f) q) ;; count_and_emit total_files current).
Proof.
  apply steps_bind; [apply _| |intros _; apply advances_count_and_emit].
  apply advances_fs_call. intros d d'. apply copy2_grows.
Qed.

Lemma advances_walk_entry (total_files : Z) (p : Item) (target : list string)
    (e : walk_entry) :
  steps (advances total_files)
    (fs_call (mkdir_parents_exist_ok (target ++ walk_rel e)) ;;
     for_each (walk_files e) (fun f =>
       fs_call (copy2 (fst f) (snd f) (target ++ walk_rel e ++ [fst f])) ;;
       count_and_emit total_files (walked_path p (walk_rel e) (fst f)))).
Proof.
  apply steps_bind; [apply _| |intros _].
  - apply advances_fs_call. intros d d'. apply mkdirs_grows.
  - apply steps_for_each; [apply _|]. intros f _. apply advances_copy_file.
Qed.

Lemma advances_merge (total_files : Z) (p : Item) (target : list string) :
  steps (advances total_files) (merge total_files p target).
Proof.
  unfold merge. apply steps_for_each; [apply _|]. intros e _.
  apply advances_walk_entry.
Qed.

Lemma advances_transfer (total_files : Z) (op : string) (p : Item) :
  steps (advances total_files) (transfer total_files op p).
Proof.
  unfold transfer. destruct (String.eqb op "copy").
  - destruct (item_node p) as [[data|children]|].
    + apply (advances_copy_file total_files (item_name p, data)).
    + intros s. destruct (path_exists (dst s) [item_name p]).
      * apply advances_merge.
      * revert s.
        apply steps_bind; [apply _| |intros _; apply advances_count_and_emit].
        apply advances_fs_call. intros d d'. apply copytree_grows.
    + apply steps_raise; apply _.
  - destruct (String.eqb op "move"); [|apply steps_ret; apply _].
    apply steps_bind; [apply _| |intros _; apply advances_count_and_emit].
    apply advances_fs_call. intros d d'. apply move_grows.
Qed.

(** *** What a merge leaves alone *)

#[global] Instance keeps_preorder (places : list (list string)) :
  PreOrder (keeps places).
Proof.
  split.
  - intros s. split; [by left | done].
  - intros s1 s2 s3 [E1 D1] [E2 D2]. split; [|auto].
    intros q e Hq. destruct (E1 q e Hq) as [H|H]; [by apply E2 | by right].
Qed.

Lemma mkdirs_keeps (q pre : list string) (d d' : dest) :
  mkdirs pre q d = Return d' ->
  forall k e, d !! k = Some e -> d' !! k = Some e.
Proof.
  revert pre d. induction q as [|n q IH]; intros pre d; cbn [mkdirs].
  - by intros [= ->].
  - destruct (d !! (pre ++ [n])) as [[data|]|] eqn:E; [done| |].
    + apply IH.
    + intros H k e Hk. apply (IH _ _ H).
      rewrite lookup_insert_ne; [done|]. intros <-. congruence.
Qed.

Lemma mkdirs_made (q pre : list string) (d d' : dest) :
  mkdirs pre q d = Return d' -> q <> [] -> d' !! (pre ++ q) = Some EDir.
Proof.
  revert pre d. induction q as [|n q IH]; intros pre d; [done|].
  cbn [mkdirs]. intros H _.
  replace (pre ++ n :: q) with ((pre ++ [n]) ++ q) by by rewrite <- app_assoc.
  destruct (d !! (pre ++ [n])) as [[data|]|] eqn:E; [done| |].
  - destruct q as [|n' q]; [|by apply (IH _ _ H)].
    cbn in H. injection H as <-. by rewrite app_nil_r.
  - destruct q as [|n' q]; [|by apply (IH _ _ H)].
    cbn in H. injection H as <-. by rewrite app_nil_r, lookup_insert_eq.
Qed.

Lemma copy2_keeps (name data : string) (q : list string) (d d' : dest) :
  copy2 name data q d = Return d' ->
  (forall k e, d !! k = Some e ->
     d' !! k = Some e \/ k = q \/ k = q ++ [name])
  /\ (forall k, d !! k = Some EDir -> d' !! k = Some EDir).
Proof.
  unfold copy2.
  set (q' := if path_isdir d q then q ++ [name] else q).
  assert (q' = q \/ q' = q ++ [name]) as Hq'
    by (unfold q'; destruct (path_isdir d q); auto).
  destruct (kind d q') as [[old|]|] eqn:Ek; [|done|];
    (destruct (kind d (removelast q')) as [[?|]|]; [done| |done]);
    intros [= <-]; (split; [intros k e Hk | intros k Hk]).
  all: destruct (decide (q' = k)) as [<-|Hne];
    [|rewrite lookup_insert_ne by done; auto].
  all: try (right; tauto).
  all: unfold kind in Ek; destruct q'; [done|congruence].
Qed.

Lemma keeps_fs_call (places : list (list string)) (f : dest -> result dest) :
  (forall d d', f d = Return d' ->
     (forall k e, d !! k = Some e -> d' !! k = Some e \/ k ∈ places)
     /\ (forall k, d !! k = Some EDir -> d' !! k = Some EDir)) ->
  steps (keeps places) (fs_call f).
Proof.
  intros Hf s. unfold fs_call.
  destruct (f (dst s)) as [d'|e] eqn:E; cbn [snd]; [|reflexivity].
  exact (Hf _ _ E).
Qed.

Lemma keeps_count_and_emit (places : list (list string)) (total_files : Z)
    (current : string) :
  steps (keeps places) (count_and_emit total_files current).
Proof. intros s. split; cbn; [by left | done]. Qed.

Lemma keeps_inner_loop (total_files : Z) (p : Item) (target : list string)
    (e : walk_entry) :
  e ∈ os_walk p ->
  steps (keeps (may_write p target))
    (for_each (walk_files e) (fun f =>
       fs_call (copy2 (fst f) (snd f) (target ++ walk_rel e ++ [fst f])) ;;
       count_and_emit total_files (walked_path p (walk_rel e) (fst f)))).
Proof.
  intros He. apply steps_for_each; [apply _|]. intros f Hf.
  apply steps_bind; [apply _| |intros _; apply keeps_count_and_emit].
  apply keeps_fs_call. intros d d' H.
  destruct (copy2_keeps _ _ _ _ _ H) as [HE HD]. split; [|done].
  intros k x Hk. destruct (HE k x Hk) as [?|Hw]; [by left|right].
  unfold may_write. apply list_elem_of_In, in_flat_map.
  exists e. split; [by apply list_elem_of_In|].
  apply in_flat_map. exists f. split; [by apply list_elem_of_In|].
  destruct Hw as [->| ->]; [by left | right; by left].
Qed.

Lemma keeps_mkdir (places : list (list string)) (q : list string) :
  steps (keeps places) (fs_call (mkdir_parents_exist_ok q)).
Proof.
  apply keeps_fs_call. intros d d' H.
  split; [intros k x Hk; left|intros k Hk]; by eapply mkdirs_keeps.
Qed.

Lemma keeps_merge (total_files : Z) (p : Item) (target : list string) :
  steps (keeps (may_write p target)) (merge total_files p target).
Proof.
  unfold merge. apply steps_for_each; [apply _|]. intros e He.
  apply steps_bind; [apply _| |intros _].
  - apply keeps_mkdir.
  - by apply keeps_inner_loop.
Qed.

(** Whether it completes or fails, a merge of [p] into [target] deletes no
    entry of the destination, leaves every directory a directory, and
    leaves every entry as it is but for those at the place of a source
    file or, there, under the file's own name. *)
Lemma merge_keeps_other_entries (total_files : Z) (p : Item)
    (target : list string) (s : state) :
  let s' := snd (merge total_files p target s) in
  grows (dst s) (dst s')
  /\ (forall q, dst s !! q = Some EDir -> dst s' !! q = Some EDir)
  /\ (forall q e, dst s !! q = Some e -> q ∉ may_write p target ->
        dst s' !! q = Some e).
Proof.
  destruct (keeps_merge total_files p target s) as [HE HD].
  destruct (advances_merge total_files p target s) as [HG _].
  split; [done|]. split; [done|].
  intros q e Hq Hn. by destruct (HE q e Hq).
Qed.

Lemma bind_returns {A B} (m : M A) (k : A -> M B) (s s' : state) (b : B) :
  (m ≫= k) s = (Return b, s') ->
  exists a s1, m s = (Return a, s1) /\ k a s1 = (Return b, s').
Proof.
  unfold mbind, M_bind, bind. destruct (m s) as [[a|e] s1]; [|done].
  intros H. by exists a, s1.
Qed.

(** What each round of a loop that completes has established, and the
    later rounds keep, holds at the end. *)
Lemma for_each_establishes (R : relation state) `{!PreOrder R} {A}
    (P : A -> state -> Prop) (l : list A) (body : A -> M unit) :
  (forall a, a ∈ l -> steps R (body a)) ->
  (forall a s s', a ∈ l -> body a s = (Return tt, s') -> P a s') ->
  (forall a s s', R s s' -> P a s -> P a s') ->
  forall s s', for_each l body s = (Return tt, s') ->
  forall a, a ∈ l -> P a s'.
Proof.
  intros Hsteps Hbody Hstable.
  induction l as [|a0 l IH]; intros s s' Hrun a Ha; [by inversion Ha|].
  cbn [for_each] in Hrun.
  apply bind_returns in Hrun as ([] & s1 & Eb & Hrun).
  assert (steps R (for_each l body)) as Hrest.
  { apply steps_for_each; [done|]. intros b Hb. apply Hsteps. by right. }
  apply elem_of_cons in Ha as [->|Ha].
  - apply (Hstable _ s1).
    + specialize (Hrest s1). by rewrite Hrun in Hrest.
    + apply (Hbody _ s); [by left | done].
  - apply (IH (fun b Hb => Hsteps b (list_elem_of_further _ _ _ Hb))
              (fun b u u' Hb => Hbody b u u' (list_elem_of_further _ _ _ Hb))
              s1 s' Hrun a Ha).
Qed.

(** A merge that completes has made every directory of the source. *)
Lemma merge_makes_directories (total_files : Z) (p : Item)
    (target : list string) (s s' : state) :
  target <> [] ->
  merge total_files p target s = (Return tt, s') ->
  forall e, e ∈ os_walk p -> dst s' !! (target ++ walk_rel e) = Some EDir.
Proof.
  intros Ht Hrun. unfold merge in Hrun.
  eapply (for_each_establishes (keeps (may_write p target))
            (fun e u => dst u !! (target ++ walk_rel e) = Some EDir));
    [| | |exact Hrun].
  - intros e He. apply steps_bind; [apply _| |intros _].
    + apply keeps_mkdir.
    + by apply keeps_inner_loop.
  - intros e u u' He Hb.
    apply bind_returns in Hb as ([] & u1 & Em & Hin).
    pose proof (keeps_inner_loop total_files p target e He u1) as [_ HD].
    rewrite Hin in HD. cbn [snd] in HD. apply HD.
    revert Em. unfold fs_call, mkdir_parents_exist_ok.
    destruct (mkdirs [] _ (dst u)) as [d1|?] eqn:Ed; [|done].
    intros [= <-]. cbn [dst].
    apply (mkdirs_made _ [] _ _ Ed).
    intros [? _]%app_eq_nil. done.
  - intros e u u' [_ HD]. apply HD.
Qed.

(** *** How many signals a successful run emits *)

Section Counting.
Context (total_files : Z) (J : state -> Prop).
Hypothesis J_stable : forall s s', advances total_files s s' -> J s -> J s'.

Lemma counts_ret : counts J 0 (ret tt).
Proof. intros s s' r _ [= _ <-]. lia. Qed.

Lemma counts_bind (k1 k2 : Z) (m1 m2 : M unit) :
  steps (advances total_files) m1 -> counts J k1 m1 -> counts J k2 m2 ->
  counts J (k1 + k2) (m1 ;; m2).
Proof.
  intros Hs H1 H2 s s' r HJ. unfold mbind, M_bind, bind.
  specialize (Hs s). specialize (H1 s).
  destruct (m1 s) as [[u|e] s1]; cbn [snd] in *; [|done].
  intros H. rewrite (H2 s1 s' r); [|by eapply J_stable|done].
  rewrite (H1 s1 u); [lia|done|done].
Qed.

Lemma counts_for_each {A B} (g : A -> list B) (l : list A) (body : A -> M unit) :
  (forall a, steps (advances total_files) (body a)) ->
  (forall a, a ∈ l -> counts J (len (g a)) (body a)) ->
  counts J (len (flat_map g l)) (for_each l body).
Proof.
  intros Hs. induction l as [|a l IH]; intros Hc; cbn [for_each flat_map].
  - apply counts_ret.
  - rewrite len_app. apply counts_bind; [apply Hs| |].
    + apply Hc. by left.
    + apply IH. intros b Hb. apply Hc. by right.
Qed.

End Counting.

Lemma len_flat_map_singleton {A B} (f : A -> B) (l : list A) :
  len (flat_map (fun a => [f a]) l) = len l.
Proof.
  unfold len. f_equal. induction l as [|a l IH]; cbn; [done|by rewrite IH].
Qed.

(** *** The whole run *)

Lemma counted_start (total_files : Z) (d : dest) :
  counted total_files (mkState d 0 []).
Proof. split; [done|]. split; [reflexivity|constructor]. Qed.

(** The trace of [run]: the progress signals emitted by the loop, then one
    terminal signal. *)
Lemma run_trace (op : string) (items : list Item) (d : dest) :
  exists (r : result unit) (s : state),
    for_each items (transfer (total_of items) op) (mkState d 0 []) = (r, s)
    /\ counted (total_of items) s
    /\ fst (run op items d) = emitted s ++ [terminal r].
Proof.
  pose proof (steps_for_each (advances (total_of items)) items
                (transfer (total_of items) op)
                (fun p _ => advances_transfer (total_of items) op p)
                (mkState d 0 [])) as [_ Hc].
  unfold run.
  destruct (for_each items _ _) as [r s] eqn:E. cbn [snd] in Hc.
  exists r, s. split; [done|]. split; [by apply Hc, counted_start|].
  by destruct r as [[]|e].
Qed.

Lemma total_of_pos (items : list Item) : 1 <= total_of items.
Proof. unfold total_of. lia. Qed.

Lemma percent_mono (total_files i j : Z) :
  0 < total_files -> i <= j -> percent i total_files <= percent j total_files.
Proof. intros Ht Hij. unfold percent. apply Z.div_le_mono; lia. Qed.

Lemma nondecreasing_percents (total_files k : Z) :
  0 < total_files ->
  nondecreasing ((fun i => percent i total_files) <$> seqZ 1 k).
Proof.
  intros Ht i j a b Hij Ha Hb.
  rewrite list_lookup_fmap in Ha, Hb.
  destruct (seqZ 1 k !! i) as [x|] eqn:Ex; [|done].
  destruct (seqZ 1 k !! j) as [y|] eqn:Ey; [|done].
  apply lookup_seqZ in Ex as [-> _]. apply lookup_seqZ in Ey as [-> _].
  cbn in Ha, Hb. injection Ha as <-. injection Hb as <-.
  apply percent_mono; lia.
Qed.

(** The percentages of a run are those of 1, 2, ..., [k], where [k] is the
    final [done]. *)
Lemma run_percents (op : string) (items : list Item) (d : dest) :
  exists k : Z,
    0 <= k
    /\ percents (fst (run op items d))
       = (fun i => percent i (total_of items)) <$> seqZ 1 k.
Proof.
  destruct (run_trace op items d) as (r & s & Hrun & (Hd & Hp & _) & Htr).
  exists (done s). split; [done|].
  rewrite Htr, percents_app; destruct r; cbn; by rewrite app_nil_r.
Qed.

(** C1.  The percentages of the progress signals of any run are
    non-decreasing.  But a directory copied to a name that is free in the
    destination is one unit, however many files it holds: for a directory
    of two files the pre-scan counts 2, and the run completes after the
    single progress signal 50, where two signals ending at 100 are
    promised. *)
Theorem whole_directory_is_one_signal :
  (forall op items d, nondecreasing (percents (fst (run op items d))))
  /\ len (scan [two_files]) = 2
  /\ fst (run "copy" [two_files] ∅) = [progress 50 "/src/T"; finished_ok]
  /\ ~ reports_every_file "copy" [two_files] ∅.
Proof.
  split; [|split; [reflexivity|split; [reflexivity|]]].
  - intros op items d. destruct (run_percents op items d) as (k & Hk & Hp).
    pose proof (total_of_pos items) as Ht.
    rewrite Hp. apply nondecreasing_percents. lia.
  - unfold reports_every_file. intros H.
    destruct H as (_ & Hlast & _); [reflexivity|].
    vm_compute in Hlast. discriminate Hlast.
Qed.

(** C8.  The denominator is at least 1 and every percentage is
    [floor(done*100/total_files)] for [done] = 1, 2, ...; but [done] may
    pass [total_files]: copying two empty directories gives
    [total_files = 1] and the percentages 100 and 200. *)
Theorem percent_exceeds_100 :
  (forall op items d,
     1 <= total_of items
     /\ exists k, percents (fst (run op items d))
                  = (fun i => percent i (total_of items)) <$> seqZ 1 k)
  /\ total_of empty_dirs = 1
  /\ fst (run "copy" empty_dirs ∅)
     = [progress 100 "/src/e1"; progress 200 "/src/e2"; finished_ok].
Proof.
  split; [|split; reflexivity].
  intros op items d. split; [apply total_of_pos|].
  destruct (run_percents op items d) as (k & _ & Hp). by exists k.
Qed.

(** C7 fails as stated: no run ends in a state of its own for a
    cancellation.  The last signal of every run is [finished_ok] or
    [finished_error]. *)
Lemma no_run_ends_cancelled : ~ has_cancelled_state.
Proof.
  intros (op & items & d & t & Hlast & Hok & Herr).
  destruct (run_trace op items d) as (r & s & _ & _ & Htr).
  rewrite Htr, last_snoc in Hlast. injection Hlast as <-.
  destruct r as [[]|e]; [done|by apply (Herr e)].
Qed.

(** C7, amended.  The worker has no cancellation signal and no state for
    a cancelled run: the signals of every run are progress signals
    followed by exactly one terminal signal, [finished_ok] or
    [finished_error] with its message. *)
Theorem worker_runs_to_the_end (op : string) (items : list Item) (d : dest) :
  exists body t,
    fst (run op items d) = body ++ [t]
    /\ Forall is_progress body
    /\ (t = finished_ok \/ exists e, t = finished_error e).
Proof.
  destruct (run_trace op items d) as (r & s & _ & (_ & _ & Hall) & Htr).
  exists (emitted s), (terminal r). split; [done|]. split; [done|].
  destruct r as [[]|e]; [by left | right; by exists e].
Qed.

(** C2.  Whatever the trees, a merge deletes nothing, leaves directories
    directories, changes no entry outside the places it may write, and,
    when it completes, has made every directory of the source.  But a
    source file whose name is that of a directory of the target is written
    inside that directory: copying [T = {f}] onto a [T] in which [f] is a
    directory holding its own [f] completes, puts no file at [T/f], and
    replaces the data of [T/f/f], an entry the source tree does not
    have. *)
Theorem merge_writes_into_directory :
  (forall total_files p target s,
     let s' := snd (merge total_files p target s) in
     grows (dst s) (dst s')
     /\ (forall q, dst s !! q = Some EDir -> dst s' !! q = Some EDir)
     /\ (forall q e, dst s !! q = Some e -> q ∉ may_write p target ->
           dst s' !! q = Some e)
     /\ (target <> [] -> fst (merge total_files p target s) = Return tt ->
         forall e, e ∈ os_walk p ->
           dst s' !! (target ++ walk_rel e) = Some EDir))
  /\ (let r := run "copy" [file_over_dir] dir_in_the_way in
      completed (fst r)
      /\ source_entry file_over_dir ["f"] = Some (EFile "new")
      /\ source_entry file_over_dir ["f"; "f"] = None
      /\ dir_in_the_way !! ["T"; "f"; "f"] = Some (EFile "old")
      /\ snd r !! ["T"; "f"; "f"] = Some (EFile "new")
      /\ snd r !! ["T"; "f"] = Some EDir).
Proof.
  split; [|repeat split; vm_compute; reflexivity].
  intros total_files p target s s'.
  destruct (merge_keeps_other_entries total_files p target s) as (HG & HD & HE).
  repeat split; try done.
  intros Ht Hret e He.
  apply (merge_makes_directories total_files p target s s' Ht); [|done].
  subst s'. destruct (merge total_files p target s) as [r u].
  cbn in Hret. by subst r.
Qed.

End TransferFacts.

Module TrashFacts.
Import Trash.

(** Without a metadata record nothing is moved. *)
Lemma restore_without_record (home cwd : list string) (overwrite : bool)
    (file_path : list string) (fs : obj) :
  get (info_path home (name file_path)) fs = None ->
  restore_from_trash home cwd overwrite file_path fs
  = Return (fs, [Warning "Restaurar" "No se encontró información de restauración."]).
Proof. intros H. unfold restore_from_trash. by rewrite H. Qed.

Lemma append_cons (x : ascii) (a b : string) :
  String x a +:+ b = String x (a +:+ b).
Proof. reflexivity. Qed.

Lemma append_assoc (a b c : string) : (a +:+ b) +:+ c = a +:+ (b +:+ c).
Proof.
  induction a as [|x a IH]; [done|]. rewrite !append_cons. by rewrite IH.
Qed.

Lemma lines_from_line (s cur rest : string) :
  one_line s = true ->
  lines_from cur (s +:+ Mount.nl +:+ rest)
  = (cur +:+ s +:+ Mount.nl) :: lines_from EmptyString rest.
Proof.
  revert cur. induction s as [|c s IH]; intros cur Hs.
  - reflexivity.
  - cbn in Hs. apply andb_true_iff in Hs as [Hc Hs].
    apply negb_true_iff in Hc. rewrite append_cons. cbn [lines_from].
    rewrite Hc, (IH _ Hs), append_assoc. reflexivity.
Qed.

Lemma rstrip_line_feed (s : string) : rstrip (s +:+ Mount.nl) = rstrip s.
Proof.
  induction s as [|c s IH]; [reflexivity|].
  rewrite append_cons. cbn [rstrip]. by rewrite IH.
Qed.

Lemma strip_line_feed (s : string) : strip (s +:+ Mount.nl) = strip s.
Proof.
  unfold strip. induction s as [|c s IH]; [reflexivity|].
  rewrite append_cons. cbn [lstrip]. destruct (is_space c); [exact IH|].
  apply (rstrip_line_feed (String c s)).
Qed.

(** The path that [restore_from_trash] reads in a record written for the
    original path [o]: [o], stripped. *)
Lemma original_path_of_trashinfo (o timestamp : string) :
  one_line o = true ->
  original_path_of (readlines (trashinfo o timestamp)) = Some (strip o).
Proof.
  intros Ho. unfold readlines.
  replace (trashinfo o timestamp)
    with (("Path=" +:+ o) +:+ Mount.nl
          +:+ ("DeletionDate=" +:+ timestamp +:+ Mount.nl)) by reflexivity.
  assert (one_line ("Path=" +:+ o) = true) as Hl by exact Ho.
  rewrite (lines_from_line _ EmptyString _ Hl).
  cbn [original_path_of].
  replace (startswith "Path=" (EmptyString +:+ ("Path=" +:+ o) +:+ Mount.nl))
    with true by (destruct o; reflexivity).
  f_equal. apply (strip_line_feed o).
Qed.

(** Where a restore goes: for a record written for the original path [o],
    the item is moved to [Path(o.strip())] and the record is deleted. *)
Lemma restore_target (home cwd : list string) (overwrite : bool)
    (file_path : list string) (fs fs1 fs2 : obj) (o timestamp : string) :
  one_line o = true ->
  get (info_path home (name file_path)) fs
    = Some (FileObj (trashinfo o timestamp)) ->
  exists_at fs (parse_path cwd (strip o)) = false ->
  shutil_move file_path (parse_path cwd (strip o)) fs = Return fs1 ->
  unlink (info_path home (name file_path)) fs1 = Return fs2 ->
  restore_from_trash home cwd overwrite file_path fs
  = Return (fs2, [Information "Restaurar"
                    ("Archivo restaurado a:" +:+ Mount.nl
                     +:+ str (parse_path cwd (strip o)))]).
Proof.
  intros Ho Hinfo Hex Hmv Hun. unfold restore_from_trash.
  rewrite Hinfo, (original_path_of_trashinfo _ _ Ho).
  cbv zeta. rewrite Hex, Hmv, Hun. reflexivity.
Qed.

(** A file with an ordinary name comes back: trashing and restoring
    [/home/user/notes.txt] gives the file system it started from. *)
Example restore_plain_name :
  let f := home ++ ["notes.txt"] in
  let fs0 := home_with "notes.txt" "hello" in
  let fs1 := fst (delete_selected home "2024-01-01T00:00:00" true [f] fs0) in
  get f fs1 = None
  /\ restore_from_trash home [] false (trash_files home ++ ["notes.txt"]) fs1
     = Return (fs0, [Information "Restaurar"
                       ("Archivo restaurado a:" +:+ Mount.nl +:+ "/home/user/notes.txt")]).
Proof. split; vm_compute; reflexivity. Qed.

(** C4.  For a record written for the original path [o],
    [restore_from_trash] moves the item to [Path(o.strip())] and deletes
    the record; without a record it moves nothing.  Stripping loses the
    blanks at the ends of [o]: the file [/home/user/notes ], whose name
    ends with a blank, is trashed with its record, and restoring it puts it
    at [/home/user/notes], not at its original path. *)
Theorem restore_strips_original_path :
  (forall home cwd overwrite file_path fs fs1 fs2 o timestamp,
     one_line o = true ->
     get (info_path home (name file_path)) fs
       = Some (FileObj (trashinfo o timestamp)) ->
     exists_at fs (parse_path cwd (strip o)) = false ->
     shutil_move file_path (parse_path cwd (strip o)) fs = Return fs1 ->
     unlink (info_path home (name file_path)) fs1 = Return fs2 ->
     restore_from_trash home cwd overwrite file_path fs
     = Return (fs2, [Information "Restaurar"
                       ("Archivo restaurado a:" +:+ Mount.nl
                        +:+ str (parse_path cwd (strip o)))]))
  /\ (forall home cwd overwrite file_path fs,
        get (info_path home (name file_path)) fs = None ->
        exists shown,
          restore_from_trash home cwd overwrite file_path fs
          = Return (fs, shown))
  /\ (let f := home ++ ["notes "] in
      let trashed := trash_files home ++ ["notes "] in
      let fs0 := home_with "notes " "hello" in
      let fs1 := fst (delete_selected home "2024-01-01T00:00:00" true [f] fs0) in
      get f fs0 = Some (FileObj "hello")
      /\ get f fs1 = None
      /\ get trashed fs1 = Some (FileObj "hello")
      /\ get (info_path home "notes ") fs1
         = Some (FileObj (trashinfo "/home/user/notes " "2024-01-01T00:00:00"))
      /\ exists fs2 shown,
           restore_from_trash home [] false trashed fs1 = Return (fs2, shown)
           /\ get f fs2 = None
           /\ get (home ++ ["notes"]) fs2 = Some (FileObj "hello")
           /\ get (info_path home "notes ") fs2 = None).
Proof.
  split; [|split].
  - intros. by apply (restore_target _ _ _ _ fs fs1 fs2 o timestamp).
  - intros h cwd ow p fs H. eexists. by apply restore_without_record.
  - repeat split; try (vm_compute; reflexivity).
    eexists _, _. repeat split; vm_compute; reflexivity.
Qed.

End TrashFacts.

Module MountScriptFacts.
Import Mount Trash MountScript TrashFacts.





End MountScriptFacts.

Module NavMore.
Import Nav NavUI PyFacts NavFacts.








(** X4.  A tab built on a directory that is readable and present starts
    with two history entries, the second being current: [__init__] seeds
    the history and its closing refresh pushes the same directory again, so
    that [go_back] is possible at once. *)
Theorem fresh_tab_has_two_entries {W} (os : OS W) (w : W) (start_path : Path) :
  os_access_R os w (resolve os w start_path) = true ->
  path_exists os w (resolve os w start_path) = true ->
  snd (init os w start_path)
  = {| current_path := resolve os w (resolve os w start_path);
       history := [resolve os w start_path;
                   resolve os w (resolve os w start_path)];
       history_index := 1 |}
  /\ snd (go_back os w (snd (init os w start_path))) = Return true.
Proof.
  intros Ha He. unfold init, set_directory, seed. cbn [current_path].
  rewrite Ha. cbn [negb]. rewrite andb_false_r. cbv iota beta.
  rewrite Ha, He. cbn [negb]. cbv iota.
  split; reflexivity.
Qed.

Lemma fresh_tab_has_two_entries_witness :
  snd (go_back plain_os tt (snd (init plain_os tt "/home/user"))) = Return true.
Proof.
  pose proof (fresh_tab_has_two_entries plain_os tt "/home/user"
                eq_refl eq_refl) as [_ H].
  exact H.
Defined.

End NavMore.

Module DevicesFacts.
Import Mount Devices.

Lemma prefix_first_field (line : string) :
  String.prefix (first_field line) line = true.
Proof.
  induction line as [|c rest IH]; [reflexivity|].
  cbn [first_field]. destruct (Ascii.eqb c " ") eqn:E; [reflexivity|].
  cbn [String.prefix]. rewrite IH.
  by destruct (ascii_dec c c).
Qed.

(** X5.  [is_device_mounted] misses no mounted device: a device path that
    is the device of some line of the mount table is reported mounted.
    When the mount table cannot be read, nothing is. *)
Theorem listed_devices_are_mounted (mounts : list string) (device_path : string) :
  listed_exactly mounts device_path = true ->
  is_device_mounted (Return mounts) device_path = true
  /\ forall e, is_device_mounted (Raise e) device_path = false.
Proof.
  intros H. split; [|done]. unfold listed_exactly, is_device_mounted in *.
  apply existsb_exists in H as (line & Hin & Heq).
  apply existsb_exists. exists line. split; [done|].
  apply String.eqb_eq in Heq. subst device_path.
  destruct line as [|c rest]; cbn [contains];
    by rewrite prefix_first_field.
Qed.

Lemma listed_devices_are_mounted_witness :
  is_device_mounted (Return ["/dev/sdb1 /media/usb vfat rw 0 0" +:+ nl])
                    "/dev/sdb1" = true.
Proof.
  pose proof (listed_devices_are_mounted
                ["/dev/sdb1 /media/usb vfat rw 0 0" +:+ nl] "/dev/sdb1"
                eq_refl) as [H _].
  exact H.
Defined.

Lemma add_partitions_named (children : list Partition) (added : list Leaf) :
  Forall (fun c => is_Some (part_name c)) children ->
  add_partitions children added
  = (added ++ omap (fun c =>
                      match part_name c with
                      | Some n => Some (describe n (part_label c) (part_size c)
                                                 (part_mountpoint c))
                      | None => None
                      end) children, None).
Proof.
  intros H. revert added. induction H as [|c cs [n Hn] _ IH]; intros added.
  - cbn. by rewrite app_nil_r.
  - cbn [add_partitions]. rewrite Hn, IH, <- app_assoc.
    do 2 f_equal. cbn. by rewrite Hn.
Qed.

Lemma add_devices_named (devices : list BlockDevice) (added : list DevItem) :
  named devices ->
  add_devices devices added = (added ++ omap item_of devices, None).
Proof.
  intros H. revert added. induction H as [|d ds [[n Hn] Hc] _ IH]; intros added.
  - cbn. by rewrite app_nil_r.
  - assert (omap item_of (d :: ds)
            = match item_of d with
              | Some i => i :: omap item_of ds
              | None => omap item_of ds
              end) as -> by reflexivity.
    cbn [add_devices]. unfold item_of at 1. rewrite Hn.
    destruct (startswith "sd" n).
    + rewrite (add_partitions_named _ [] Hc). cbn [app].
      rewrite IH. by rewrite <- app_assoc.
    + apply IH.
Qed.

Lemma refresh_devices_nonempty (run : result LsblkRun) :
  refresh_devices run <> [].
Proof.
  unfold refresh_devices. destruct run as [r|e]; [|done].
  destruct (if lsblk_returncode r =? 0 then _ else _) as [items [e|]].
  - intros [_ ?]%app_eq_nil. done.
  - by destruct items.
Qed.

(** X6.  [refresh_devices] never leaves the node without a child.  When
    [lsblk] succeeds and every device and partition has a name, the
    children are the items of the devices whose name starts with [sd], in
    order, each with the items of all its partitions, or the single note
    [(Sin dispositivos)] when there is no such device; devices with other
    names get no item. *)
Theorem refresh_devices_lists_sd_devices (run : result LsblkRun)
    (devices : list BlockDevice) :
  refresh_devices run <> []
  /\ (named devices ->
      refresh_devices (Return (mkLsblkRun 0 (Return devices)))
      = match omap item_of devices with
        | [] => [note "(Sin dispositivos)"]
        | items => items
        end).
Proof.
  split; [apply refresh_devices_nonempty|].
  intros H. unfold refresh_devices. cbn [lsblk_returncode lsblk_blockdevices].
  change (0 =? 0) with true. cbv iota.
  rewrite (add_devices_named devices [] H). cbn [app].
  by destruct (omap item_of devices).
Qed.

Lemma refresh_devices_lists_sd_devices_witness :
  refresh_devices
    (Return (mkLsblkRun 0 (Return
       [mkBlockDevice (Some "nvme0n1") None (Some "1T") None [];
        mkBlockDevice (Some "sdb") None (Some "8G") None
          [mkPartition (Some "sdb1") (Some "USB") (Some "8G")
                       (Some "/media/usb")]])))
  = [mkDevItem (mkLeaf "/dev/sdb - 8G" (Some "/dev/sdb"))
       [mkLeaf "/dev/sdb1 (USB) - 8G [Montado en /media/usb]"
               (Some "/media/usb")]].
Proof.
  pose proof (refresh_devices_lists_sd_devices (Raise "")
    [mkBlockDevice (Some "nvme0n1") None (Some "1T") None [];
     mkBlockDevice (Some "sdb") None (Some "8G") None
       [mkPartition (Some "sdb1") (Some "USB") (Some "8G")
                    (Some "/media/usb")]]) as [_ H].
  rewrite H; [reflexivity|].
  repeat constructor; by eexists.
Defined.

(** X7.  The item of a device or partition that [lsblk] reports as mounted
    carries its mount point, not its device path; unless that mount point
    is [/media] or lies under [/dev/], its context menu is the plain one:
    neither [Montar] nor [Desmontar] is offered.  An item that carries no
    data (a note) makes the menu raise. *)
Theorem mounted_items_get_plain_menu (proc_mounts : result (list string))
    (name mountpoint : string) (label size : option string) :
  mountpoint <> EmptyString ->
  mountpoint <> "/media" ->
  startswith "/dev/" mountpoint = false ->
  leaf_data (describe name label size (Some mountpoint)) = Some mountpoint
  /\ tree_menu proc_mounts
       (leaf_data (describe name label size (Some mountpoint)))
     = Return ["Abrir"; "Abrir en una pestaña nueva";
               "Abrir en una ventana nueva"]
  /\ tree_menu proc_mounts None = Raise "AttributeError".
Proof.
  intros Hne Hmedia Hdev.
  assert (truthy (Some mountpoint) = Some mountpoint) as Ht
    by (by destruct mountpoint).
  unfold describe. rewrite Ht. cbn [leaf_data]. split; [done|].
  split; [|done]. unfold tree_menu. rewrite Hdev.
  destruct (String.eqb_spec mountpoint "/media"); [done|done].
Qed.

Lemma mounted_items_get_plain_menu_witness :
  tree_menu (Return ["/dev/sdb1 /media/usb vfat rw 0 0" +:+ nl])
    (leaf_data (describe "sdb1" (Some "USB") (Some "8G") (Some "/media/usb")))
  = Return ["Abrir"; "Abrir en una pestaña nueva";
            "Abrir en una ventana nueva"].
Proof.
  pose proof (mounted_items_get_plain_menu
                (Return ["/dev/sdb1 /media/usb vfat rw 0 0" +:+ nl])
                "sdb1" "/media/usb" (Some "USB") (Some "8G")) as H.
  destruct H as (_ & H & _); [discriminate|discriminate|reflexivity|].
  exact H.
Defined.

End DevicesFacts.

Module TransferMore.
Import Transfer TransferBounds PyFacts TransferFacts.

(** X8.  A copy deletes nothing from the destination: whether the run
    completes or fails, every path that was there before is still there
    afterwards. *)
Theorem copy_keeps_destination_entries (items : list Item) (d : dest)
    (q : list string) :
  is_Some (d !! q) -> is_Some (snd (run "copy" items d) !! q).
Proof.
  pose proof (steps_for_each (advances (total_of items)) items
                (transfer (total_of items) "copy")
                (fun p _ => advances_transfer (total_of items) "copy" p)
                (mkState d 0 [])) as [Hg _].
  unfold run. destruct (for_each items _ _) as [[u|e] s]; cbn [snd dst] in *;
    apply Hg.
Qed.

Lemma copy_keeps_destination_entries_witness :
  is_Some (snd (run "copy" [file_over_dir] dir_in_the_way) !! ["T"; "f"]).
Proof.
  apply (copy_keeps_destination_entries [file_over_dir] dir_in_the_way
           ["T"; "f"]).
  vm_compute. by eexists.
Defined.

Lemma adds_ret {A} (a : A) : adds_at_most 0 (ret a).
Proof. intros s. cbn. lia. Qed.

Lemma adds_bind (k1 k2 : Z) {A B} (m : M A) (k : A -> M B) :
  0 <= k2 ->
  adds_at_most k1 m -> (forall a, adds_at_most k2 (k a)) ->
  adds_at_most (k1 + k2) (m ≫= k).
Proof.
  intros Hk2 Hm Hk s. unfold mbind, M_bind, bind.
  specialize (Hm s). destruct (m s) as [[a|e] s1]; cbn [snd] in *; [|lia].
  specialize (Hk a s1). lia.
Qed.

Lemma adds_weaken (k k' : Z) {A} (m : M A) :
  k <= k' -> adds_at_most k m -> adds_at_most k' m.
Proof. intros Hk Hm s. specialize (Hm s). lia. Qed.

Lemma adds_fs_call (f : dest -> result dest) : adds_at_most 0 (fs_call f).
Proof.
  intros s. unfold fs_call. destruct (f (dst s)); cbn; lia.
Qed.

Lemma adds_count_and_emit (total_files : Z) (current : string) :
  adds_at_most 1 (count_and_emit total_files current).
Proof. intros s. cbn. lia. Qed.

Lemma adds_for_each {A B} (g : A -> list B) (l : list A) (body : A -> M unit) :
  (forall a, a ∈ l -> adds_at_most (len (g a)) (body a)) ->
  adds_at_most (len (flat_map g l)) (for_each l body).
Proof.
  induction l as [|a l IH]; intros Hb; cbn [for_each flat_map].
  - apply adds_ret.
  - rewrite len_app. apply adds_bind; [apply len_nonneg|apply Hb; by left|].
    intros _. apply IH. intros b Hin. apply Hb. by right.
Qed.

Lemma adds_one_unit (total_files : Z) (f : dest -> result dest)
    (current : string) :
  adds_at_most 1 (fs_call f ;; count_and_emit total_files current).
Proof.
  apply (adds_bind 0 1); [lia|apply adds_fs_call|].
  intros _. apply adds_count_and_emit.
Qed.

Lemma len_pos_of_ne {A} (l : list A) : l <> [] -> 1 <= len l.
Proof. destruct l; [done|]. unfold len. cbn [length]. lia. Qed.

(** A source that is moved adds one to [done], whatever it holds. *)
Lemma adds_move (total_files : Z) (p : Item) :
  scan_item p <> [] ->
  adds_at_most (len (scan_item p)) (transfer total_files "move" p).
Proof.
  intros Hne. pose proof (len_pos_of_ne _ Hne) as Hpos.
  assert (transfer total_files "move" p
          = (fs_call (move (item_name p) (item_node p) [item_name p]) ;;
             count_and_emit total_files (item_path p))) as ->
    by reflexivity.
  eapply adds_weaken; [exact Hpos|apply adds_one_unit].
Qed.

(** X9.  When the pre-scan finds at least one file for every source (no
    source is a directory without any file below it), every percentage
    that a move emits lies between 0 and 100, whether the run completes or
    fails. *)
Theorem move_percent_within_bounds (items : list Item) (d : dest) :
  every_source_counts items ->
  Forall (fun pct => 0 <= pct <= 100) (percents (fst (run "move" items d))).
Proof.
  intros Hall.
  destruct (run_trace "move" items d) as (r & s & Hrun & (Hd & Hp & _) & Htr).
  assert (done s <= len (scan items)) as Hle.
  { pose proof (adds_for_each scan_item items
                  (transfer (total_of items) "move")) as Hadd.
    specialize (Hadd (fun p Hin =>
      adds_move (total_of items) p
        (proj1 (Forall_forall _ _) Hall p Hin)) (mkState d 0 [])).
    rewrite Hrun in Hadd. cbn in Hadd. unfold scan. lia. }
  rewrite Htr, percents_app.
  replace (percents [terminal r]) with (@nil Z) by (by destruct r).
  rewrite app_nil_r, Hp.
  apply Forall_fmap, Forall_forall. intros i Hi.
  apply list_elem_of_lookup in Hi as [n Hn].
  apply lookup_seqZ in Hn as [-> Hn].
  pose proof (total_of_pos items) as Ht.
  assert (1 + Z.of_nat n <= total_of items) by (unfold total_of; lia).
  unfold percent. cbn. split.
  - apply Z.div_pos; lia.
  - apply Z.div_le_upper_bound; lia.
Qed.

Lemma move_percent_within_bounds_witness :
  Forall (fun pct => 0 <= pct <= 100)
         (percents (fst (run "move" [two_files] ∅))).
Proof.
  apply move_percent_within_bounds.
  repeat constructor. vm_compute. discriminate.
Defined.

(** X10.  A move that completes has emitted exactly one progress signal per
    source, directories included, however many files they hold. *)
Theorem move_emits_one_signal_per_source (items : list Item) (d : dest) :
  completed (fst (run "move" items d)) ->
  len (percents (fst (run "move" items d))) = len items.
Proof.
  destruct (run_trace "move" items d) as (r & s & Hrun & (Hd & Hp & _) & Htr).
  unfold completed. rewrite Htr, last_snoc, percents_app.
  intros Hc. destruct r as [[]|e]; [|done].
  cbn [terminal percents omap]. rewrite app_nil_r, Hp.
  assert (counts (fun _ => True) (len (flat_map (fun p => [p]) items))
            (for_each items (transfer (total_of items) "move"))) as Hcount.
  { apply (counts_for_each (total_of items)); [done| |].
    - apply advances_transfer.
    - intros p _ u u' x _.
      assert (transfer (total_of items) "move" p
              = (fs_call (move (item_name p) (item_node p) [item_name p]) ;;
                 count_and_emit (total_of items) (item_path p))) as ->
        by reflexivity.
      unfold mbind, M_bind, bind, fs_call.
      destruct (move (item_name p) (item_node p) [item_name p] (dst u));
        [|done]. intros [= _ <-]. cbn [done]. unfold len. simpl length. lia. }
  specialize (Hcount _ _ _ I Hrun). cbn in Hcount.
  rewrite len_flat_map_singleton in Hcount.
  unfold len at 1. rewrite length_fmap, length_seqZ. lia.
Qed.

Lemma move_emits_one_signal_per_source_witness :
  len (percents (fst (run "move" [two_files] ∅))) = 1.
Proof.
  pose proof (move_emits_one_signal_per_source [two_files] ∅) as H.
  rewrite H; reflexivity.
Defined.

(** X11.  Copying one directory onto a name that the destination holds
    as a regular file writes nothing and reports no progress: the
    destination is left exactly as it was. *)
Theorem copy_directory_onto_file_writes_nothing (p : Item) (d : dest)
    (children : list (string * node)) (data : string) :
  item_node p = Some (Dir children) ->
  d !! [item_name p] = Some (EFile data) ->
  snd (run "copy" [p] d) = d
  /\ percents (fst (run "copy" [p] d)) = [].
Proof.
  intros Hn Hd.
  assert (run "copy" [p] d = ([finished_error "FileExistsError"], d)) as ->;
    [|done].
  unfold run. cbn [for_each].
  unfold mbind at 1, M_bind at 1, bind at 1.
  unfold transfer at 1. change (("copy" =? "copy")%string) with true.
  cbv iota. rewrite Hn. cbn [dst].
  assert (path_exists d [item_name p] = true) as ->
    by (unfold path_exists, kind; by rewrite Hd).
  unfold merge, os_walk. rewrite Hn. cbn [walk for_each].
  unfold mbind at 1, M_bind at 1, bind at 1.
  unfold mbind at 1, M_bind at 1, bind at 1.
  unfold fs_call at 1, mkdir_parents_exist_ok. cbn [dst walk_rel app mkdirs].
  by rewrite Hd.
Qed.

Lemma copy_directory_onto_file_writes_nothing_witness :
  snd (run "copy" [two_files] {[ ["T"] := EFile "x" ]})
  = {[ ["T"] := EFile "x" ]}
  /\ percents (fst (run "copy" [two_files] {[ ["T"] := EFile "x" ]})) = [].
Proof.
  apply (copy_directory_onto_file_writes_nothing two_files
           {[ ["T"] := EFile "x" ]} [("a", File "1"); ("b", File "2")] "x").
  - reflexivity.
  - reflexivity.
Defined.

End TransferMore.

Module TrashTree.
Import Trash TrashOps.

Lemma get_cons (x : string) (p : list string) (m : gmap string obj) :
  get (x :: p) (DirObj m)
  = match m !! x with Some c => get p c | None => None end.
Proof. reflexivity. Qed.

Lemma remove_one (x : string) (m : gmap string obj) :
  remove [x] (DirObj m)
  = match m !! x with Some _ => Some (DirObj (delete x m)) | None => None end.
Proof. reflexivity. Qed.

Lemma remove_cons (x y : string) (p : list string) (m : gmap string obj) :
  remove (x :: y :: p) (DirObj m)
  = match m !! x with
    | Some c =>
        match remove (y :: p) c with
        | Some c' => Some (DirObj (<[x := c']> m))
        | None => None
        end
    | None => None
    end.
Proof. reflexivity. Qed.

Lemma get_app (q r : list string) (t : obj) :
  get (q ++ r) t = get q t ≫= get r.
Proof.
  revert t. induction q as [|x q IH]; intros t; [done|].
  cbn [app get]. destruct t as [c|m]; [done|].
  destruct (m !! x); [apply IH|done].
Qed.

(** What lies above an existing entry is a directory. *)
Lemma get_above (q r : list string) (x : string) (t n : obj) :
  get (q ++ x :: r) t = Some n -> exists m, get q t = Some (DirObj m).
Proof.
  rewrite get_app. destruct (get q t) as [[c|m]|]; [done| |done].
  intros _. by exists m.
Qed.

Lemma apart_cons (x : string) (p q : list string) :
  apart (x :: p) (x :: q) -> apart p q.
Proof.
  intros [H1 H2]. split; intros [k ->]; [apply H1|apply H2]; by exists k.
Qed.

Lemma remove_is_Some (p : list string) (t t' : obj) :
  remove p t = Some t' -> is_Some (get p t).
Proof.
  revert t t'. induction p as [|x p IH]; intros t t'; [done|].
  destruct t as [c|m]; [by destruct p|].
  destruct p as [|y p].
  - rewrite remove_one, get_cons. destruct (m !! x); [by eexists|done].
  - rewrite remove_cons, get_cons. destruct (m !! x) as [c|]; [|done].
    destruct (remove (y :: p) c) as [c'|] eqn:E; [|done].
    intros _. by apply (IH c c').
Qed.

(** After a removal nothing is left at the path or below it. *)
Lemma get_remove_below (p r : list string) (t t' : obj) :
  remove p t = Some t' -> get (p ++ r) t' = None.
Proof.
  revert t t'. induction p as [|x p IH]; intros t t'; [done|].
  destruct t as [c|m]; [by destruct p|].
  destruct p as [|y p].
  - rewrite remove_one. destruct (m !! x); [|done]. intros [= <-].
    cbn [app]. by rewrite get_cons, lookup_delete_eq.
  - rewrite remove_cons. destruct (m !! x) as [c|]; [|done].
    destruct (remove (y :: p) c) as [c'|] eqn:E; [|done].
    intros [= <-]. rewrite <- app_comm_cons, get_cons, lookup_insert_eq.
    by apply (IH c c').
Qed.

(** A removal leaves alone what is neither below nor above the path. *)
Lemma get_remove_apart (p q : list string) (t t' : obj) :
  remove p t = Some t' -> apart p q -> get q t' = get q t.
Proof.
  revert q t t'. induction p as [|x p IH]; intros q t t'; [done|].
  destruct t as [c|m]; [by destruct p|].
  intros Hr Hap. destruct q as [|z q].
  { destruct Hap as [_ H]. destruct H. by exists (x :: p). }
  destruct p as [|y p].
  - rewrite remove_one in Hr. destruct (m !! x); [|done]. injection Hr as <-.
    rewrite !get_cons. destruct (decide (x = z)) as [->|Hne].
    + destruct Hap as [H _]. destruct H. by exists q.
    + by rewrite lookup_delete_ne.
  - rewrite remove_cons in Hr. destruct (m !! x) as [c|] eqn:Ex; [|done].
    destruct (remove (y :: p) c) as [c'|] eqn:E; [|done].
    injection Hr as <-. rewrite !get_cons.
    destruct (decide (x = z)) as [->|Hne].
    + rewrite lookup_insert_eq, Ex. apply (IH q c c' E).
      by apply apart_cons in Hap.
    + by rewrite lookup_insert_ne.
Qed.

Lemma prefix_cases (p q : list string) :
  p `prefix_of` q \/ (exists x r, p = q ++ x :: r) \/ apart p q.
Proof.
  destruct (decide (p `prefix_of` q)) as [|Hpq]; [by left|right].
  destruct (decide (q `prefix_of` p)) as [[k ->]|Hqp]; [left|by right].
  destruct k as [|x r]; [|by eauto].
  destruct Hpq. exists []. by rewrite !app_nil_r.
Qed.

(** A removal creates nothing. *)
Lemma get_remove_None (p q : list string) (t t' : obj) :
  remove p t = Some t' -> get q t = None -> get q t' = None.
Proof.
  intros Hr Hq. destruct (prefix_cases p q) as [[k ->]|[(x & r & ->)|Hap]].
  - by apply (get_remove_below p k t).
  - apply remove_is_Some in Hr as [n Hn].
    apply get_above in Hn as [m Hm]. congruence.
  - by rewrite (get_remove_apart _ _ _ _ Hr Hap).
Qed.

(** A removal keeps every regular file that is not at or below the path. *)
Lemma get_remove_file (p q : list string) (t t' : obj) (c : string) :
  remove p t = Some t' -> get q t = Some (FileObj c) ->
  get q t' = Some (FileObj c) \/ p `prefix_of` q.
Proof.
  intros Hr Hq. destruct (prefix_cases p q) as [?|[(x & r & ->)|Hap]].
  - by right.
  - apply remove_is_Some in Hr as [n Hn].
    apply get_above in Hn as [m Hm]. congruence.
  - left. by rewrite (get_remove_apart _ _ _ _ Hr Hap).
Qed.

End TrashTree.

Module TrashMore.
Import Mount Trash TrashOps TrashTree.

Lemma unlink_Return (p : list string) (fs fs' : obj) :
  unlink p fs = Return fs' ->
  remove p fs = Some fs' /\ exists c, get p fs = Some (FileObj c).
Proof.
  unfold unlink. destruct (get p fs) as [[c|m]|]; [|done|done].
  destruct (remove p fs); [|done]. intros [= ->]. split; [done|by exists c].
Qed.

Lemma get_remove_self (p : list string) (t t' : obj) :
  remove p t = Some t' -> get p t' = None.
Proof.
  intros H. rewrite <- (app_nil_r p). by apply (get_remove_below p [] t).
Qed.

(** X12.  [delete_permanently] on a path other than the root: when it
    reports success, neither the item nor its metadata record exists any
    more; whatever it reports, every regular file that is neither at or
    below the item nor the record itself is still there with its content;
    and when there is nothing at the path, it changes nothing (the record,
    if any, stays) and shows a warning. *)
Theorem purge_removes_item_and_record (home file_path : list string)
    (fs : obj) :
  file_path <> [] ->
  (snd (delete_permanently home file_path fs)
     = [Information "Eliminar" "Archivo eliminado definitivamente."] ->
   get file_path (fst (delete_permanently home file_path fs)) = None
   /\ get (info_path home (name file_path))
          (fst (delete_permanently home file_path fs)) = None)
  /\ (forall q c,
        get q fs = Some (FileObj c) ->
        get q (fst (delete_permanently home file_path fs)) = Some (FileObj c)
        \/ file_path `prefix_of` q
        \/ q = info_path home (name file_path))
  /\ (get file_path fs = None ->
      delete_permanently home file_path fs
      = (fs, [Warning "Eliminar"
                ("No se pudo eliminar:" +:+ nl +:+ "FileNotFoundError")])).
Proof.
  intros _. set (info := info_path home (name file_path)).
  assert (forall fs1,
    (if isdir_at fs file_path then rmtree file_path fs
     else unlink file_path fs) = Return fs1 ->
    remove file_path fs = Some fs1) as Hfirst.
  { intros fs1. destruct (isdir_at fs file_path).
    - unfold rmtree. destruct (remove file_path fs); [|done]. by intros [= ->].
    - by intros [? _]%unlink_Return. }
  unfold delete_permanently. fold info.
  destruct (if isdir_at fs file_path then _ else _) as [fs1|e] eqn:E1.
  - pose proof (Hfirst fs1 eq_refl) as Hr1.
    destruct (exists_at fs1 info) eqn:Eex.
    + destruct (unlink info fs1) as [fs2|e] eqn:E2; cbn [fst snd].
      * apply unlink_Return in E2 as [Hr2 [ci Hci]].
        split; [intros _; split|split].
        -- apply (get_remove_None _ _ _ _ Hr2). by apply (get_remove_self _ fs).
        -- by apply (get_remove_self _ fs1).
        -- intros q c Hq.
           destruct (get_remove_file _ _ _ _ _ Hr1 Hq) as [Hq1|?]; [|by auto].
           destruct (get_remove_file _ _ _ _ _ Hr2 Hq1) as [?|[k Hk]];
             [by auto|].
           right; right. destruct k as [|x r]; [by rewrite app_nil_r in Hk|].
           rewrite Hk in Hq1. apply get_above in Hq1 as [m Hm]. congruence.
        -- intros Hnone. apply remove_is_Some in Hr1 as [? ?]. congruence.
      * split; [done|split].
        -- intros q c Hq.
           destruct (get_remove_file _ _ _ _ _ Hr1 Hq); by auto.
        -- intros Hnone. apply remove_is_Some in Hr1 as [? ?]. congruence.
    + cbn [fst snd]. split; [intros _; split|split].
      * by apply (get_remove_self _ fs).
      * unfold exists_at in Eex. by destruct (get info fs1).
      * intros q c Hq.
        destruct (get_remove_file _ _ _ _ _ Hr1 Hq); by auto.
      * intros Hnone. apply remove_is_Some in Hr1 as [? ?]. congruence.
  - cbn [fst snd]. split; [done|split; [by auto|]].
    intros Hnone. revert E1. unfold isdir_at, unlink. rewrite Hnone.
    by intros [= <-].
Qed.

Lemma purge_removes_item_and_record_witness :
  get (trash_files home ++ ["old.txt"])
      (fst (delete_permanently home (trash_files home ++ ["old.txt"])
              (fst (delete_selected home "2024-01-01T00:00:00" true
                      [home ++ ["old.txt"]] (home_with "old.txt" "x")))))
  = None.
Proof.
  pose proof (purge_removes_item_and_record home
                (trash_files home ++ ["old.txt"])
                (fst (delete_selected home "2024-01-01T00:00:00" true
                        [home ++ ["old.txt"]] (home_with "old.txt" "x"))))
    as [H _]; [discriminate|].
  apply H. vm_compute. reflexivity.
Defined.

End TrashMore.

(** ** [str.split] and [str.join] *)

Module PyStrFacts.
Import Trash PyStr.

Lemma app_String (c : ascii) (a b : string) :
  String c a +:+ b = String c (a +:+ b).
Proof. reflexivity. Qed.

Lemma app_empty_r (a : string) : a +:+ EmptyString = a.
Proof. induction a as [|c a IH]; [reflexivity|]. by rewrite app_String, IH. Qed.

Lemma app_snoc (a : string) (c : ascii) (b : string) :
  (a +:+ String c EmptyString) +:+ b = a +:+ String c b.
Proof.
  induction a as [|x a IH]; [reflexivity|].
  by rewrite !app_String, IH.
Qed.

Lemma no_space_snoc (a : string) (c : ascii) :
  no_space a = true -> is_space c = false ->
  no_space (a +:+ String c EmptyString) = true.
Proof.
  induction a as [|x a IH]; intros Ha Hc.
  - cbn [no_space]. replace (EmptyString +:+ String c EmptyString)
      with (String c EmptyString) by reflexivity.
    cbn [no_space]. by rewrite Hc.
  - rewrite app_String. cbn [no_space] in *.
    apply andb_true_iff in Ha as [-> Ha]. by rewrite IH.
Qed.

(** The equations of [split_from]. *)
Lemma split_from_space (cur : string) (c : ascii) (s : string) :
  is_space c = true ->
  split_from cur (String c s)
  = match cur with
    | EmptyString => split_from EmptyString s
    | _ => cur :: split_from EmptyString s
    end.
Proof. intros H. cbn [split_from]. by rewrite H. Qed.

Lemma split_from_char (cur : string) (c : ascii) (s : string) :
  is_space c = false ->
  split_from cur (String c s) = split_from (cur +:+ String c EmptyString) s.
Proof. intros H. cbn [split_from]. by rewrite H. Qed.

(** What [split] gives are words. *)
Lemma split_from_words (s cur : string) :
  no_space cur = true -> Forall word (split_from cur s).
Proof.
  revert cur. induction s as [|c s IH]; intros cur Hcur.
  - cbn [split_from]. destruct cur; [constructor|].
    constructor; [|constructor]. by split.
  - destruct (is_space c) eqn:Hc.
    + rewrite split_from_space by done. destruct cur.
      * by apply IH.
      * constructor; [by split|]. by apply IH.
    + rewrite split_from_char by done. apply IH. by apply no_space_snoc.
Qed.

Lemma split_words (s : string) : Forall word (split s).
Proof. by apply split_from_words. Qed.

(** Reading a text without whitespace only extends the current word. *)
Lemma split_from_app (w cur s : string) :
  no_space w = true ->
  split_from cur (w +:+ s) = split_from (cur +:+ w) s.
Proof.
  revert cur. induction w as [|c w IH]; intros cur Hw.
  - by rewrite app_empty_r.
  - cbn [no_space] in Hw. apply andb_true_iff in Hw as [Hc Hw].
    apply negb_true_iff in Hc.
    rewrite app_String, split_from_char by done.
    rewrite IH by done. by rewrite app_snoc.
Qed.

Lemma is_space_blank : is_space " " = true.
Proof. reflexivity. Qed.

(** Joining words with one blank and splitting again gives the words
    back. *)
Lemma split_join (ws : list string) :
  Forall word ws -> split (join " " ws) = ws.
Proof.
  unfold split. induction 1 as [|w ws [Hne Hw] Hws IH]; [reflexivity|].
  destruct ws as [|w2 ws].
  - cbn [join]. rewrite <- (app_empty_r w) at 1.
    rewrite split_from_app by done.
    replace (EmptyString +:+ w) with w by reflexivity.
    cbn [split_from]. by destruct w.
  - replace (join " " (w :: w2 :: ws))
      with (w +:+ String " " (join " " (w2 :: ws))) by reflexivity.
    rewrite split_from_app by done.
    replace (EmptyString +:+ w) with w by reflexivity.
    rewrite split_from_space by apply is_space_blank.
    rewrite IH. by destruct w.
Qed.

Lemma prefix_app (p q s : string) :
  String.prefix (p +:+ q) s = true -> String.prefix p s = true.
Proof.
  revert s. induction p as [|c p IH]; intros s H.
  - by destruct s.
  - rewrite app_String in H. destruct s as [|x s]; [done|].
    cbn [String.prefix] in *. destruct (ascii_dec c x); [|done]. by apply IH.
Qed.

(** A text that contains [p +:+ q] contains [p]. *)
Lemma contains_app (p q s : string) :
  contains (p +:+ q) s = true -> contains p s = true.
Proof.
  induction s as [|x s IH]; intros H.
  - cbn [contains] in *. rewrite orb_false_r in *. by eapply prefix_app.
  - cbn [contains] in *. apply orb_true_iff in H as [H|H].
    + by rewrite (prefix_app _ _ _ H).
    + rewrite IH by done. by rewrite orb_true_r.
Qed.

End PyStrFacts.

(** ** Opening a file with an application *)

Module OpenWithFacts.
Import PyStr OpenWith PyStrFacts.

(** The second [split] of line 1208 undoes the [join] of line 1206: the
    command started is the list of the words of the command line that do
    not start with a percent sign. *)
Lemma launch_argv_filter (cmd path : string) :
  launch_argv cmd path
  = filter (fun x => startswith "%" x = false)
      (split (replace2 "%" "F" path (replace2 "%" "f" path cmd))).
Proof.
  unfold launch_argv. cbv zeta. apply split_join.
  apply List.Forall_forall. intros w Hw.
  apply list_elem_of_In, list_elem_of_filter in Hw as [_ Hw].
  pose proof (split_words (replace2 "%" "F" path (replace2 "%" "f" path cmd)))
    as Hall.
  rewrite List.Forall_forall in Hall. by apply Hall, list_elem_of_In.
Qed.

(** X14. Every argument of the command that [open_with_dialog] starts is
    a non-empty text without whitespace that does not start with a percent
    sign. *)
Theorem launch_arguments_are_plain_words (cmd path : string) :
  Forall (fun a => word a /\ startswith "%" a = false) (launch_argv cmd path).
Proof.
  rewrite launch_argv_filter.
  apply List.Forall_forall. intros w Hw.
  apply list_elem_of_In, list_elem_of_filter in Hw as [Hp Hw].
  split; [|done].
  pose proof (split_words (replace2 "%" "F" path (replace2 "%" "f" path cmd)))
    as Hall.
  rewrite List.Forall_forall in Hall. by apply Hall, list_elem_of_In.
Qed.

(** X15. When the path of the file has whitespace in it, the command that
    [open_with_dialog] starts never gets that path as an argument: the
    path is cut at the whitespace like the rest of the command line. *)
Theorem path_with_space_is_not_an_argument (cmd path : string) :
  no_space path = false -> path ∉ launch_argv cmd path.
Proof.
  intros Hsp Hin. rewrite launch_argv_filter in Hin.
  apply list_elem_of_filter in Hin as [_ Hin].
  pose proof (split_words (replace2 "%" "F" path (replace2 "%" "f" path cmd)))
    as Hall.
  rewrite List.Forall_forall in Hall.
  apply list_elem_of_In, Hall in Hin as [_ Hw]. congruence.
Qed.

Lemma path_with_space_is_not_an_argument_witness :
  ("/home/u/my notes.txt" ∉ launch_argv "gedit %f" "/home/u/my notes.txt")
  /\ launch_argv "gedit %f" "/home/u/my notes.txt"
     = ["gedit"; "/home/u/my"; "notes.txt"].
Proof.
  split; [|reflexivity].
  apply (path_with_space_is_not_an_argument "gedit %f" "/home/u/my notes.txt").
  reflexivity.
Defined.

(** X16. The MIME type of the file plays no part in the test of line 1146
    that selects the applications offered: a [.desktop] file passes it
    exactly when its content has the text [MimeType=] somewhere. *)
Theorem mime_type_is_ignored (mime_type content : string) :
  mentions_mime mime_type content = contains "MimeType=" content.
Proof.
  unfold mentions_mime.
  destruct (contains ("MimeType=" +:+ mime_type) content) eqn:H; [|done].
  by rewrite (contains_app _ _ _ H).
Qed.

End OpenWithFacts.

(** ** Execute permissions *)

Module PermsFacts.
Import PyStr Perms.








Lemma chmod_all_cons (extensions : list string) (p : DirEntry)
    (rest : list DirEntry) :
  chmod_all extensions (p :: rest)
  = if wants_exec extensions p then
      match chmod_error p with
      | None =>
          (mkDirEntry (entry_name p) (entry_is_file p)
             (Z.lor (st_mode p) exec_bits) None
           :: fst (chmod_all extensions rest),
           snd (chmod_all extensions rest))
      | Some e => (p :: rest, Some e)
      end
    else (p :: fst (chmod_all extensions rest),
          snd (chmod_all extensions rest)).
Proof.
  cbn [chmod_all].
  by destruct (wants_exec extensions p), (chmod_error p),
    (chmod_all extensions rest).
Qed.

Lemma chmod_all_again (extensions : list string) (entries : list DirEntry) :
  chmod_all extensions (fst (chmod_all extensions entries))
  = chmod_all extensions entries.
Proof.
  induction entries as [|p rest IH]; [reflexivity|].
  rewrite (chmod_all_cons extensions p rest).
  destruct (wants_exec extensions p) eqn:Hw; [destruct (chmod_error p) eqn:Ha|];
    cbn [fst].
  - by rewrite chmod_all_cons, Hw, Ha.
  - rewrite chmod_all_cons.
    replace (wants_exec extensions
               (mkDirEntry (entry_name p) (entry_is_file p)
                  (Z.lor (st_mode p) exec_bits) None))
      with (wants_exec extensions p) by reflexivity.
    rewrite Hw. cbn [chmod_error entry_name entry_is_file st_mode].
    by rewrite IH, <- Z.lor_assoc, Z.lor_diag.
  - by rewrite chmod_all_cons, Hw, IH.
Qed.

(** X19. Running [apply_exec_permissions] a second time changes nothing
    more and gives the same message: the entries after two runs are those
    after one. *)
Theorem exec_permissions_idempotent (exec_extensions : string)
    (entries : list DirEntry) :
  apply_exec_permissions exec_extensions
    (fst (apply_exec_permissions exec_extensions entries))
  = apply_exec_permissions exec_extensions entries.
Proof.
  unfold apply_exec_permissions. cbv zeta.
  pose proof (chmod_all_again (split exec_extensions) entries) as H.
  destruct (chmod_all (split exec_extensions) entries) as [entries' [e|]];
    cbn [fst] in *; by rewrite H.
Qed.

End PermsFacts.
